(** * super-scraper: the crawler pool and request admission (src/crawlers.ts)

    A shallow embedding of [crawlers.ts]: the process-wide map of crawler
    pools, [createAndStartCrawler], [addRequest], and the three callbacks the
    file hands to the crawling engine ([errorHandler], [failedRequestHandler],
    the pre-navigation hook) together with the two overrides that stamp
    timing events.

    JavaScript objects that are shared and mutated (the [crawlers] map, the
    response registry, the request queue the crawlers hold) live in one
    [World] record that every operation threads through.  Asynchronous
    functions are cut at their [await]s: a call is a small task whose
    program counter names the [await] it is suspended on, and one [step]
    runs the synchronous code up to the next [await]. *)

From Stdlib Require Import ZArith Ascii String List Sorted Lia.
From stdpp Require Import base option list strings pretty gmap.
Import ListNotations.

Set Warnings "-register-all".

Local Open Scope Z_scope.
Local Open Scope string_scope.
Local Open Scope list_scope.

(* ===================================================================== *)
(** ** JavaScript values and [JSON.stringify] *)
(* ===================================================================== *)

Module JSON.

(** The values that reach [JSON.stringify] in this file.  [JUndefined]
    is kept apart from [JNull]: a property whose value is [undefined] is
    left out of the text, an array element that is [undefined] prints as
    [null].

    [JObj fields] lists the own properties of an object in the order in
    which JavaScript enumerates them (integer-like keys first, in ascending
    order, then the other keys in insertion order), each key once; [JNum n]
    is an integer that JavaScript prints in full (below 10^21 in size).
    [proper] checks what of this a list can show. *)
Inductive json : Type :=
| JUndefined
| JNull
| JBool (b : bool)
| JNum (n : Z)
| JStr (s : string)
| JArr (items : list json)
| JObj (fields : list (string * json)).

Definition dquote : string := String (ascii_of_nat 34) EmptyString.

Definition hex_digit (n : nat) : ascii :=
  if (n <? 10)%nat then ascii_of_nat (48 + n) else ascii_of_nat (87 + n).

(** One character of a string literal: the quote and the backslash are
    escaped, control characters use their short form or [\u00XX]. *)
Definition escape (c : ascii) : string :=
  let n := nat_of_ascii c in
  if (n =? 34)%nat then "\" +:+ dquote
  else if (n =? 92)%nat then "\\"
  else if (n =? 8)%nat then "\b"
  else if (n =? 9)%nat then "\t"
  else if (n =? 10)%nat then "\n"
  else if (n =? 12)%nat then "\f"
  else if (n =? 13)%nat then "\r"
  else if (n <? 32)%nat
       then "\u00" +:+ String (hex_digit (n / 16)) (String (hex_digit (n mod 16)) EmptyString)
  else String c EmptyString.

Fixpoint escape_all (s : string) : string :=
  match s with
  | EmptyString => EmptyString
  | String c r => escape c +:+ escape_all r
  end.

Definition quote (s : string) : string := dquote +:+ escape_all s +:+ dquote.

Fixpoint commas (parts : list string) : string :=
  match parts with
  | [] => EmptyString
  | [p] => p
  | p :: rest => p +:+ "," +:+ commas rest
  end.

(** [JSON.stringify v] without indentation; [None] stands for the
    [undefined] that [JSON.stringify(undefined)] returns. *)
Fixpoint stringify (v : json) : option string :=
  match v with
  | JUndefined => None
  | JNull => Some "null"
  | JBool b => Some (if b then "true" else "false")
  | JNum n => Some (pretty n)
  | JStr s => Some (quote s)
  | JArr items =>
      Some ("[" +:+
            commas ((fix elems (l : list json) : list string :=
                       match l with
                       | [] => []
                       | x :: r =>
                           match stringify x with
                           | Some t => t :: elems r
                           | None => "null" :: elems r
                           end
                       end) items)
            +:+ "]")
  | JObj fields =>
      Some ("{" +:+
            commas ((fix members (l : list (string * json)) : list string :=
                       match l with
                       | [] => []
                       | (k, x) :: r =>
                           match stringify x with
                           | Some t => (quote k +:+ ":" +:+ t) :: members r
                           | None => members r
                           end
                       end) fields)
            +:+ "}")
  end.

(** The members [JSON.stringify] prints for the properties of an object:
    a property whose value has no text is left out. *)
Definition members_text : list (string * json) -> list string :=
  fix members (l : list (string * json)) : list string :=
    match l with
    | [] => []
    | (k, x) :: r =>
        match stringify x with
        | Some t => (quote k +:+ ":" +:+ t) :: members r
        | None => members r
        end
    end.

(** [JSON.stringify] of an object: always a string. *)
Definition stringify_object (fields : list (string * json)) : string :=
  "{" +:+ commas (members_text fields) +:+ "}".

Definition keys (fields : list (string * json)) : list string := map fst fields.

(** Whether a value respects the reading of [JObj] and [JNum] above, as far
    as it can be checked: the keys of every object are distinct and every
    number is below 10^21 in size. *)
Fixpoint proper (v : json) : bool :=
  match v with
  | JNum n => Z.ltb (Z.abs n) (10 ^ 21)
  | JArr items =>
      (fix all (l : list json) : bool :=
         match l with
         | [] => true
         | x :: r => proper x && all r
         end) items
  | JObj fields =>
      bool_decide (NoDup (map fst fields))
      && (fix all (l : list (string * json)) : bool :=
            match l with
            | [] => true
            | (_, x) :: r => proper x && all r
            end) fields
  | _ => true
  end.

(** JavaScript truthiness. *)
Definition truthy (v : json) : bool :=
  match v with
  | JUndefined | JNull => false
  | JBool b => b
  | JNum n => negb (Z.eqb n 0)
  | JStr s => negb (String.eqb s EmptyString)
  | JArr _ | JObj _ => true
  end.

(** [x || dflt]. *)
Definition js_or (x dflt : json) : json := if truthy x then x else dflt.

End JSON.
Import JSON.

(* ===================================================================== *)
(** ** Data carried by a job *)
(* ===================================================================== *)

(** [TimeMeasure]: one entry of a job's timing ledger. *)
Record TimeMeasure : Type := { event : string; time : Z }.

(** One entry of [requestDetails.requestErrors]. *)
Record RequestError : Type := { attempt : nat; errorMessage : string }.

(** [requestDetails]: what the handlers collect while a job runs.
    [responseHeaders] is [JUndefined] while it is missing. *)
Record RequestDetails : Type := {
  requestErrors : list RequestError;
  responseHeaders : json;
  xhr : list json
}.

(** [Label]: its declaration (const.ts) is not among the sources; only
    [Label.BROWSER] is named in crawlers.ts. *)
Inductive Label : Type :=
| BROWSER
| OtherLabel (name : string).

(** [UserData], the bag the outer HTTP layer attaches to a request; its
    declaration (types.ts) is not among the sources, the fields are those
    the callbacks destructure.  A field that the code only tests for
    truthiness is a [bool]; [nonbrowserRequestStatus] is a number that may be
    missing. *)
Record UserData : Type := {
  requestDetails : RequestDetails;
  jsonResponse : bool;
  inputtedUrl : string;
  parsedInputtedParams : json;
  timeMeasures : list TimeMeasure;
  transparentStatusCode : bool;
  nonbrowserRequestStatus : option Z;
  blockResources : bool;
  width : Z;
  height : Z;
  blockResourcePatterns : option (list string)
}.

Definition with_timeMeasures (l : list TimeMeasure) (u : UserData) : UserData :=
  {| requestDetails := requestDetails u; jsonResponse := jsonResponse u;
     inputtedUrl := inputtedUrl u; parsedInputtedParams := parsedInputtedParams u;
     timeMeasures := l; transparentStatusCode := transparentStatusCode u;
     nonbrowserRequestStatus := nonbrowserRequestStatus u;
     blockResources := blockResources u; width := width u; height := height u;
     blockResourcePatterns := blockResourcePatterns u |}.

Definition with_requestDetails (d : RequestDetails) (u : UserData) : UserData :=
  {| requestDetails := d; jsonResponse := jsonResponse u;
     inputtedUrl := inputtedUrl u; parsedInputtedParams := parsedInputtedParams u;
     timeMeasures := timeMeasures u; transparentStatusCode := transparentStatusCode u;
     nonbrowserRequestStatus := nonbrowserRequestStatus u;
     blockResources := blockResources u; width := width u; height := height u;
     blockResourcePatterns := blockResourcePatterns u |}.

Definition with_requestErrors (l : list RequestError) (d : RequestDetails) : RequestDetails :=
  {| requestErrors := l; responseHeaders := responseHeaders d; xhr := xhr d |}.

Definition with_xhr (l : list json) (d : RequestDetails) : RequestDetails :=
  {| requestErrors := requestErrors d; responseHeaders := responseHeaders d; xhr := l |}.

(** [RequestOptions<UserData>], the argument of [addRequest]: [userData]
    is optional there (the code reads it through [?.]). *)
Module RequestOptions.
Record t : Type := {
  uniqueKey : string;
  url : string;
  label : Label;
  skipNavigation : bool;
  userData : option UserData
}.
Definition with_userData (u : option UserData) (r : t) : t :=
  {| uniqueKey := uniqueKey r; url := url r; label := label r;
     skipNavigation := skipNavigation r; userData := u |}.
End RequestOptions.

(** The engine's [Request], as the callbacks see it: the handlers cast
    [request.userData as UserData] and use its fields directly.
    [retryCount] and [sessionRotationCount] are the engine's counters. *)
Record Request : Type := {
  uniqueKey : string;
  url : string;
  label : Label;
  skipNavigation : bool;
  retryCount : nat;
  sessionRotationCount : nat;
  userData : UserData
}.

Definition with_userData (u : UserData) (r : Request) : Request :=
  {| uniqueKey := uniqueKey r; url := url r; label := label r;
     skipNavigation := skipNavigation r; retryCount := retryCount r;
     sessionRotationCount := sessionRotationCount r; userData := u |}.

Definition with_retryCount (n : nat) (r : Request) : Request :=
  {| uniqueKey := uniqueKey r; url := url r; label := label r;
     skipNavigation := skipNavigation r; retryCount := n;
     sessionRotationCount := sessionRotationCount r; userData := userData r |}.

Definition with_sessionRotationCount (n : nat) (r : Request) : Request :=
  {| uniqueKey := uniqueKey r; url := url r; label := label r;
     skipNavigation := skipNavigation r; retryCount := retryCount r;
     sessionRotationCount := n; userData := userData r |}.

(** The engine builds its [Request] from queued options (retry count 0);
    only options that carry [userData] give a job the callbacks can run. *)
Definition Request_of (o : RequestOptions.t) : option Request :=
  match RequestOptions.userData o with
  | Some u =>
      Some {| uniqueKey := RequestOptions.uniqueKey o; url := RequestOptions.url o;
              label := RequestOptions.label o;
              skipNavigation := RequestOptions.skipNavigation o;
              retryCount := 0; sessionRotationCount := 0; userData := u |}
  | None => None
  end.

(** [CrawlerOptions]: a plain object (its declaration, types.ts, is not
    among the sources); [JSON.stringify] of it is the key of the pool map. *)
Definition CrawlerOptions : Type := list (string * json).

Definition DEFAULT_CRAWLER_OPTIONS : CrawlerOptions :=
  [("proxyConfigurationOptions", JObj [])].

(** [JSON.stringify(crawlerOptions)], the configuration fingerprint. *)
Definition fingerprint (o : CrawlerOptions) : string := stringify_object o.

(** The default of the parameter of [createAndStartCrawler]:
    [crawlerOptions = DEFAULT_CRAWLER_OPTIONS] when the argument is missing.
    [addRequest] always passes its own. *)
Definition crawlerOptions_or_default (o : option CrawlerOptions) : CrawlerOptions :=
  match o with
  | Some given => given
  | None => DEFAULT_CRAWLER_OPTIONS
  end.

(* ===================================================================== *)
(** ** The shared world *)
(* ===================================================================== *)

(** A [PlaywrightCrawler] instance, as far as this file touches it.
    [started] records that [run()] was called on it; with [keepAlive] the
    run does not end by itself, and whether it has ended is not observed by
    this file.  [maxSessionRotations] is not passed by the source: it has
    the engine's default.  The request queue is not a field: every crawler
    holds the one default queue of the process, [defaultQueue] below. *)
Record Crawler : Type := {
  configuration : CrawlerOptions;
  maxRequestRetries : nat;
  maxSessionRotations : nat;
  maxConcurrency : nat;
  keepAlive : bool;
  useSessionPool : bool;
  requestHandlerTimeoutSecs : nat;
  started : bool;
  blankPages : nat
}.

(** What was written on a response channel. *)
Record Delivery : Type := { channel : nat; statusCode : Z; body : string }.

(** One record handed to [pushLogData]. *)
Record LogData : Type := {
  logged_measures : list TimeMeasure;
  logged_url : string;
  logged_params : json;
  logged_result : json;
  logged_errors : list RequestError;
  logged_failed : bool
}.

(** The order in which the shared objects are touched. *)
Inductive Effect : Type :=
| PoolFound (key : string) (c : nat)
| PoolConstructed (c : nat)
| PoolStored (key : string) (c : nat)
| ChannelRegistered (key : string) (res : nat)
| TimingPushed (key : string) (ev : string)
| Enqueued (c : nat) (key : string)
| Dispatched (key : string) (res : nat).

(** [defaultQueue] is the queue [RequestQueue.open(undefined, ...)]
    resolves to: the engine caches opened storages by name, so every call
    gets the same default queue, whatever storage client is passed. *)
Record World : Type := {
  crawlers : gmap string nat;
  instances : list Crawler;
  defaultQueue : list RequestOptions.t;
  responses : gmap string nat;
  wire : list Delivery;
  ticks : nat;
  latestRequestTaskTimeMeasure : option TimeMeasure;
  dataset : list LogData;
  journal : list Effect
}.

Definition empty_world : World :=
  {| crawlers := ∅; instances := []; defaultQueue := []; responses := ∅; wire := []; ticks := 0%nat;
     latestRequestTaskTimeMeasure := None; dataset := []; journal := [] |}.

Definition set_crawlers (m : gmap string nat) (w : World) : World :=
  {| crawlers := m; instances := instances w;
     defaultQueue := defaultQueue w; responses := responses w; wire := wire w;
     ticks := ticks w; latestRequestTaskTimeMeasure := latestRequestTaskTimeMeasure w;
     dataset := dataset w; journal := journal w |}.

Definition set_instances (l : list Crawler) (w : World) : World :=
  {| crawlers := crawlers w; instances := l; defaultQueue := defaultQueue w;
     responses := responses w; wire := wire w;
     ticks := ticks w; latestRequestTaskTimeMeasure := latestRequestTaskTimeMeasure w;
     dataset := dataset w; journal := journal w |}.

Definition set_defaultQueue (q : list RequestOptions.t) (w : World) : World :=
  {| crawlers := crawlers w; instances := instances w; defaultQueue := q;
     responses := responses w; wire := wire w;
     ticks := ticks w; latestRequestTaskTimeMeasure := latestRequestTaskTimeMeasure w;
     dataset := dataset w; journal := journal w |}.

Definition set_responses (m : gmap string nat) (w : World) : World :=
  {| crawlers := crawlers w; instances := instances w;
     defaultQueue := defaultQueue w; responses := m; wire := wire w;
     ticks := ticks w; latestRequestTaskTimeMeasure := latestRequestTaskTimeMeasure w;
     dataset := dataset w; journal := journal w |}.

Definition set_wire (l : list Delivery) (w : World) : World :=
  {| crawlers := crawlers w; instances := instances w;
     defaultQueue := defaultQueue w; responses := responses w; wire := l;
     ticks := ticks w; latestRequestTaskTimeMeasure := latestRequestTaskTimeMeasure w;
     dataset := dataset w; journal := journal w |}.

Definition set_ticks (n : nat) (w : World) : World :=
  {| crawlers := crawlers w; instances := instances w;
     defaultQueue := defaultQueue w; responses := responses w; wire := wire w;
     ticks := n; latestRequestTaskTimeMeasure := latestRequestTaskTimeMeasure w;
     dataset := dataset w; journal := journal w |}.

Definition set_latest (m : option TimeMeasure) (w : World) : World :=
  {| crawlers := crawlers w; instances := instances w;
     defaultQueue := defaultQueue w; responses := responses w; wire := wire w;
     ticks := ticks w; latestRequestTaskTimeMeasure := m;
     dataset := dataset w; journal := journal w |}.

Definition set_dataset (l : list LogData) (w : World) : World :=
  {| crawlers := crawlers w; instances := instances w;
     defaultQueue := defaultQueue w; responses := responses w; wire := wire w;
     ticks := ticks w; latestRequestTaskTimeMeasure := latestRequestTaskTimeMeasure w;
     dataset := l; journal := journal w |}.

Definition record (e : Effect) (w : World) : World :=
  {| crawlers := crawlers w; instances := instances w;
     defaultQueue := defaultQueue w; responses := responses w; wire := wire w;
     ticks := ticks w; latestRequestTaskTimeMeasure := latestRequestTaskTimeMeasure w;
     dataset := dataset w; journal := journal w ++ [e] |}.

(** Exceptions. *)
Inductive Error : Type :=
| DuplicateKeyError (key : string)
| ExternalError (message : string).

Definition message_of (e : Error) : string :=
  match e with
  | DuplicateKeyError key => "Response for request " +:+ key +:+ " already registered"
  | ExternalError m => m
  end.

(** A computation on the world that returns or throws; a throw keeps the
    changes made before it. *)
Inductive Result (A : Type) : Type :=
| Ok (a : A)
| Throw (e : Error).
Arguments Ok {A} a.
Arguments Throw {A} e.

Definition M (A : Type) : Type := World -> Result A * World.

Definition ret {A : Type} (a : A) : M A := fun w => (Ok a, w).

Definition throw {A : Type} (e : Error) : M A := fun w => (Throw e, w).

Definition bind {A B : Type} (m : M A) (k : A -> M B) : M B :=
  fun w =>
    match m w with
    | (Ok a, w') => k a w'
    | (Throw e, w') => (Throw e, w')
    end.

Definition modify (f : World -> World) : M unit := fun w => (Ok tt, f w).

#[global] Instance M_ret : MRet M := @ret.
#[global] Instance M_bind : MBind M := fun A B k m => bind m k.

(* ===================================================================== *)
(** ** The response registry (responses.ts) and the request queue *)
(* ===================================================================== *)

(** Modelled from the spec: responses.ts, which defines [addResponse], is
    not among the sources.  It is the registry's [register(key, channel)]:
    "inserts; fails with DuplicateKeyError if key already present". *)
Definition addResponse (key : string) (res : nat) : M unit :=
  fun w =>
    match responses w !! key with
    | Some _ => (Throw (DuplicateKeyError key), w)
    | None =>
        (Ok tt, record (ChannelRegistered key res)
                  (set_responses (<[key := res]> (responses w)) w))
    end.

(** Modelled from the spec: responses.ts, which defines
    [sendErrorResponseById], is not among the sources.  It is the
    dispatcher's [dispatch(key, payload, statusCode)]: "looks up and removes
    the entry; if absent, logs and no-ops"; "Delivery writes statusCode and
    payload to the channel and closes it."  The log line of the absent case
    is not part of the world. *)
Definition dispatch (key payload : string) (status : Z) : M unit :=
  fun w =>
    match responses w !! key with
    | None => (Ok tt, w)
    | Some res =>
        (Ok tt, record (Dispatched key res)
                  (set_wire (wire w ++ [{| channel := res; statusCode := status; body := payload |}])
                     (set_responses (delete key (responses w)) w)))
    end.

Definition sendErrorResponseById (responseId result : string) (status : Z) : M unit :=
  dispatch responseId result status.

(** Modelled from the spec: utils.ts, which defines [pushLogData], is not
    among the sources.  It is the diagnostics sink's
    [record(timingLedger, {inputtedUrl, parsedParams, result, errors}, isError)],
    "fire-and-forget, must never block or fail the crawl". *)
Definition pushLogData (measures : list TimeMeasure) (inputted : string) (params result : json)
    (errors : list RequestError) (failed : bool) : M unit :=
  modify (fun w =>
    set_dataset (dataset w ++ [{| logged_measures := measures; logged_url := inputted;
                                  logged_params := params; logged_result := result;
                                  logged_errors := errors; logged_failed := failed |}]) w).

(** [requestQueue.addRequest]: the queue of the engine de-duplicates by
    unique key; adding a key it already holds changes nothing. *)
Definition queue_add (r : RequestOptions.t) (q : list RequestOptions.t) : list RequestOptions.t :=
  if decide (RequestOptions.uniqueKey r ∈ map RequestOptions.uniqueKey q) then q else q ++ [r].

(** [crawler.run()]: the executor loop is started in the background. *)
Definition run (c : Crawler) : Crawler :=
  {| configuration := configuration c; maxRequestRetries := maxRequestRetries c;
     maxSessionRotations := maxSessionRotations c;
     maxConcurrency := maxConcurrency c; keepAlive := keepAlive c;
     useSessionPool := useSessionPool c;
     requestHandlerTimeoutSecs := requestHandlerTimeoutSecs c;
     started := true; blankPages := blankPages c |}.

(** [crawler.browserPool.newPage()]: the blank page that keeps the browser
    alive. *)
Definition newPage (c : Crawler) : Crawler :=
  {| configuration := configuration c; maxRequestRetries := maxRequestRetries c;
     maxSessionRotations := maxSessionRotations c;
     maxConcurrency := maxConcurrency c; keepAlive := keepAlive c;
     useSessionPool := useSessionPool c;
     requestHandlerTimeoutSecs := requestHandlerTimeoutSecs c;
     started := started c; blankPages := S (blankPages c) |}.

(** [new PlaywrightCrawler({...})] with the options of the source;
    [maxSessionRotations] is left at the engine's default, 10. *)
Definition new_PlaywrightCrawler (o : CrawlerOptions) : Crawler :=
  {| configuration := o; maxRequestRetries := 1; maxSessionRotations := 10;
     maxConcurrency := 1; keepAlive := true; useSessionPool := true;
     requestHandlerTimeoutSecs := 3600;
     started := false; blankPages := 0 |}.

(* ===================================================================== *)
(** ** [createAndStartCrawler] and [addRequest], cut at their awaits *)
(* ===================================================================== *)

(** Which of the awaited external calls of one admission throws, and with
    what message. *)
Record Faults : Type := {
  queueOpenFault : option string;
  proxyFault : option string;
  stopCapturingFault : option string;
  enqueueFault : option string
}.

Definition no_faults : Faults :=
  {| queueOpenFault := None; proxyFault := None; stopCapturingFault := None;
     enqueueFault := None |}.

(** Where a call of [createAndStartCrawler] is suspended. *)
Inductive CreatePc : Type :=
| CreateEntry
| AwaitQueueOpen
| AwaitProxyConfiguration
| AwaitStopCapturing (c : nat)
| Created (c : nat)
| CreateFailed (e : Error).

(** One synchronous stretch of [createAndStartCrawler].  Opening the queue
    resolves to the default queue and changes nothing.  The crawler is
    constructed after the proxy configuration resolves; it is started and
    stored in [crawlers] only after [stats.stopCapturing()] resolves. *)
Definition createAndStartCrawler_step (f : Faults) (o : CrawlerOptions)
    (p : CreatePc) (w : World) : CreatePc * World :=
  match p with
  | CreateEntry => (AwaitQueueOpen, w)
  | AwaitQueueOpen =>
      match queueOpenFault f with
      | Some m => (CreateFailed (ExternalError m), w)
      | None => (AwaitProxyConfiguration, w)
      end
  | AwaitProxyConfiguration =>
      match proxyFault f with
      | Some m => (CreateFailed (ExternalError m), w)
      | None =>
          let c := length (instances w) in
          (AwaitStopCapturing c,
           record (PoolConstructed c)
             (set_instances (instances w ++ [new_PlaywrightCrawler o]) w))
      end
  | AwaitStopCapturing c =>
      match stopCapturingFault f with
      | Some m => (CreateFailed (ExternalError m), w)
      | None =>
          let w1 := set_instances (alter run c (instances w)) w in
          let w2 := record (PoolStored (fingerprint o) c)
                      (set_crawlers (<[fingerprint o := c]> (crawlers w1)) w1) in
          (Created c, set_instances (alter newPage c (instances w2)) w2)
      end
  | Created c => (Created c, w)
  | CreateFailed e => (CreateFailed e, w)
  end.

(** Where a call of [addRequest] is suspended. *)
Inductive Pc : Type :=
| Entry
| Creating (p : CreatePc)
| AwaitEnqueue (c : nat)
| Returned
| Rejected (e : Error).

(** One call of [addRequest]: its arguments, the faults of its external
    calls, and where it stands. *)
Record Call : Type := {
  pc : Pc;
  request : RequestOptions.t;
  res : nat;
  crawlerOptions : CrawlerOptions;
  faults : Faults
}.

Definition at_pc (p : Pc) (k : Call) : Call :=
  {| pc := p; request := request k; res := res k; crawlerOptions := crawlerOptions k;
     faults := faults k |}.

Definition with_request (r : RequestOptions.t) (k : Call) : Call :=
  {| pc := pc k; request := r; res := res k; crawlerOptions := crawlerOptions k;
     faults := faults k |}.

Definition new_call (r : RequestOptions.t) (channel : nat) (o : CrawlerOptions) (f : Faults) : Call :=
  {| pc := Entry; request := r; res := channel; crawlerOptions := o; faults := f |}.

(** [VerboseResult]: its declaration (types.ts) is not among the sources;
    the fields are those of the object literal that [failedRequestHandler]
    declares with this type, in the order of the literal. *)
Module VerboseResult.
Record t : Type := {
  body : json;
  cookies : json;
  evaluateResults : json;
  jsScenarioReport : json;
  headers : json;
  type : json;
  iframes : json;
  xhr : json;
  initialStatusCode : json;
  resolvedUrl : json;
  screenshot : json
}.
Definition to_object (v : t) : list (string * json) :=
  [("body", body v); ("cookies", cookies v); ("evaluateResults", evaluateResults v);
   ("jsScenarioReport", jsScenarioReport v); ("headers", headers v); ("type", type v);
   ("iframes", iframes v); ("xhr", xhr v); ("initialStatusCode", initialStatusCode v);
   ("resolvedUrl", resolvedUrl v); ("screenshot", screenshot v)].
End VerboseResult.

Section Host.

(** [wallclock n] is what the [n]-th call of [Date.now()] in the process
    returns. *)
Variable wallclock : nat -> Z.

Definition Date_now : M Z :=
  fun w => (Ok (wallclock (ticks w)), set_ticks (S (ticks w)) w).

(** [timeMeasures.push({ event, time: Date.now() })]. *)
Definition push_measure (ev : string) (l : list TimeMeasure) : M (list TimeMeasure) :=
  t ← Date_now;
  mret (l ++ [{| event := ev; time := t |}]).

(** [request.userData?.timeMeasures.push({event: 'before queue add', ...})]:
    nothing is evaluated when the request has no [userData]. *)
Definition push_before_queue_add (r : RequestOptions.t) : M RequestOptions.t :=
  match RequestOptions.userData r with
  | None => mret r
  | Some u =>
      l ← push_measure "before queue add" (timeMeasures u);
      modify (record (TimingPushed (RequestOptions.uniqueKey r) "before queue add"));;
      mret (RequestOptions.with_userData (Some (with_timeMeasures l u)) r)
  end.

(** The synchronous stretch of [addRequest] once [crawler] is known:
    [addResponse], the timing push, and the call of the queue's
    [addRequest], on which the function then awaits. *)
Definition admission_stretch (k : Call) : M RequestOptions.t :=
  addResponse (RequestOptions.uniqueKey (request k)) (res k);;
  push_before_queue_add (request k).

Definition resume_with (c : nat) (k : Call) (w : World) : Call * World :=
  match admission_stretch k w with
  | (Ok r, w') => (at_pc (AwaitEnqueue c) (with_request r k), w')
  | (Throw e, w') => (at_pc (Rejected e) k, w')
  end.

(** One synchronous stretch of [addRequest]. *)
Definition addRequest_step (k : Call) (w : World) : Call * World :=
  match pc k with
  | Entry =>
      let key := fingerprint (crawlerOptions k) in
      match crawlers w !! key with
      | Some c => resume_with c k (record (PoolFound key c) w)
      | None =>
          let '(p, w') := createAndStartCrawler_step (faults k) (crawlerOptions k) CreateEntry w in
          (at_pc (Creating p) k, w')
      end
  | Creating (Created c) => resume_with c k w
  | Creating (CreateFailed e) => (at_pc (Rejected e) k, w)
  | Creating p =>
      let '(p', w') := createAndStartCrawler_step (faults k) (crawlerOptions k) p w in
      (at_pc (Creating p') k, w')
  | AwaitEnqueue c =>
      match enqueueFault (faults k) with
      | Some m => (at_pc (Rejected (ExternalError m)) k, w)
      | None =>
          (at_pc Returned k,
           record (Enqueued c (RequestOptions.uniqueKey (request k)))
             (set_defaultQueue (queue_add (request k) (defaultQueue w)) w))
      end
  | Returned => (k, w)
  | Rejected _ => (k, w)
  end.

Definition finished (k : Call) : bool :=
  match pc k with
  | Returned | Rejected _ => true
  | _ => false
  end.

(** A call run without interruption for at most [fuel] stretches. *)
Fixpoint run_call (fuel : nat) (k : Call) (w : World) : Call * World :=
  match fuel with
  | O => (k, w)
  | S n =>
      if finished k then (k, w)
      else let '(k', w') := addRequest_step k w in run_call n k' w'
  end.

(** [addRequest(request, res, crawlerOptions)] run to its end with no other
    call interleaved: six stretches are the longest path. *)
Definition addRequest (r : RequestOptions.t) (channel : nat) (o : CrawlerOptions)
    (f : Faults) (w : World) : Call * World :=
  run_call 6 (new_call r channel o f) w.

(** Several calls in flight: the scheduler resumes one of them at a time. *)
Record System : Type := { world : World; calls : list Call }.

Definition resume (i : nat) (s : System) : System :=
  match calls s !! i with
  | None => s
  | Some k =>
      let '(k', w') := addRequest_step k (world s) in
      {| world := w'; calls := <[i := k']> (calls s) |}
  end.

Definition run_schedule (sched : list nat) (s : System) : System :=
  fold_left (fun s i => resume i s) sched s.

(* --------------------------------------------------------------------- *)
(** *** The callbacks given to the engine *)
(* --------------------------------------------------------------------- *)

(** [errorHandler]: called by the engine for a failed attempt that will be
    retried. *)
Definition errorHandler (request : Request) (err : string) : M Request :=
  let u := userData request in
  l ← push_measure "error" (timeMeasures u);
  let errors := requestErrors (requestDetails u)
                ++ [{| attempt := retryCount request + 1; errorMessage := err |}] in
  mret (with_userData
          (with_requestDetails (with_requestErrors errors (requestDetails u))
             (with_timeMeasures l u)) request).

(** What [await page.context().cookies(request.url)] does: [page] is
    [undefined] when the attempt failed before a page was opened, so that
    the expression throws; so it does when the page is already closed. *)
Inductive Cookies : Type :=
| CookiesThrow (message : string)
| CookiesResolve (value : json).

(** What the engine passes to [failedRequestHandler] besides the request:
    the status of the last network response when there is a [response], and
    the behaviour of the cookie lookup on [page]. *)
Record FailureContext : Type := {
  response_status : option Z;
  page_cookies : Cookies
}.

(** [request.skipNavigation ? nonbrowserRequestStatus! : (response?.status() || null)]. *)
Definition responseStatusCode (request : Request) (ctx : FailureContext) : json :=
  if skipNavigation request then
    match nonbrowserRequestStatus (userData request) with
    | Some n => JNum n
    | None => JUndefined
    end
  else
    match response_status ctx with
    | Some n => js_or (JNum n) JNull
    | None => JNull
    end.

(** [let statusCode = 500; if (transparentStatusCode && responseStatusCode)
    statusCode = responseStatusCode]. *)
Definition failure_statusCode (transparent : bool) (code : json) : Z :=
  if transparent && truthy code then
    match code with
    | JNum n => n
    | _ => 500
    end
  else 500.

(** The [errorResponse] literal. *)
Definition errorResponse (err : string) : list (string * json) :=
  [("errorMessage", JStr err)].

(** The [verboseResponse] literal of [failedRequestHandler], once the
    cookie lookup has resolved to [cookies]. *)
Definition verboseResponse (request : Request) (ctx : FailureContext) (cookies : json)
    (err : string) : VerboseResult.t :=
  {| VerboseResult.body := JObj (errorResponse err);
     VerboseResult.cookies := js_or cookies (JArr []);
     VerboseResult.evaluateResults := JArr [];
     VerboseResult.jsScenarioReport := JObj [];
     VerboseResult.headers :=
       js_or (responseHeaders (requestDetails (userData request))) (JObj []);
     VerboseResult.type := JStr "json";
     VerboseResult.iframes := JArr [];
     VerboseResult.xhr := JArr [];
     VerboseResult.initialStatusCode := responseStatusCode request ctx;
     VerboseResult.resolvedUrl := JStr EmptyString;
     VerboseResult.screenshot := JNull |}.

(** [requestDetails.requestErrors.push({attempt: request.retryCount + 1,
    errorMessage: err.message})] of [failedRequestHandler]. *)
Definition with_error_logged (err : string) (request : Request) : Request :=
  let u := userData request in
  with_userData
    (with_requestDetails
       (with_requestErrors
          (requestErrors (requestDetails u)
           ++ [{| attempt := retryCount request + 1; errorMessage := err |}])
          (requestDetails u)) u) request.

(** [failedRequestHandler]: called by the engine when a job is not retried.
    The push on the error log comes first and stays when the handler throws;
    in the [jsonResponse] branch the cookie lookup is evaluated while the
    literal is built, before anything is logged or sent. *)
Definition failedRequestHandler (request : Request) (ctx : FailureContext) (err : string)
    : M Request :=
  let u := userData request in
  let request' := with_error_logged err request in
  let errors := requestErrors (requestDetails (userData request')) in
  let status := failure_statusCode (transparentStatusCode u) (responseStatusCode request ctx) in
  if jsonResponse u then
    match page_cookies ctx with
    | CookiesThrow m => throw (ExternalError m)
    | CookiesResolve cookies =>
        let result := VerboseResult.to_object (verboseResponse request ctx cookies err) in
        pushLogData (timeMeasures u) (inputtedUrl u) (parsedInputtedParams u) (JObj result)
          errors true;;
        sendErrorResponseById (uniqueKey request) (stringify_object result) status;;
        mret request'
    end
  else
    pushLogData (timeMeasures u) (inputtedUrl u) (parsedInputtedParams u)
      (JObj (errorResponse err)) errors true;;
    sendErrorResponseById (uniqueKey request) (stringify_object (errorResponse err)) status;;
    mret request'.

(** What the second pre-navigation hook leaves on the page. *)
Record Page : Type := {
  viewport : Z * Z;
  blockedPatterns : option (list string);
  xhrCapture : bool
}.

Definition is_BROWSER (l : Label) : bool :=
  match l with
  | BROWSER => true
  | OtherLabel _ => false
  end.

(** The second pre-navigation hook (the first only prints responses). *)
Definition preNavigationHook (request : Request) : M (Request * Page) :=
  let u := userData request in
  l ← push_measure "pre-navigation hook" (timeMeasures u);
  mret (with_userData (with_timeMeasures l u) request,
        {| viewport := (width u, height u);
           blockedPatterns :=
             if is_BROWSER (label request) && blockResources u
             then Some (default [] (blockResourcePatterns u))
             else None;
           xhrCapture := is_BROWSER (label request) && jsonResponse u |}).

(** A network response as the listener of the hook sees it; [body_text]
    is [None] when [resp.body()] throws. *)
Record NetworkResponse : Type := {
  resourceType : string;
  request_url : string;
  response_status_code : Z;
  method : string;
  request_headers : json;
  response_headers : json;
  body_text : option string
}.

(** The listener installed for browser jobs that want the envelope. *)
Definition onResponse (resp : NetworkResponse) (d : RequestDetails) : RequestDetails :=
  if negb (String.eqb (resourceType resp) "xhr") then d
  else
    match body_text resp with
    | None => d
    | Some b =>
        with_xhr (xhr d ++ [JObj [("url", JStr (request_url resp));
                                  ("statusCode", JNum (response_status_code resp));
                                  ("method", JStr (method resp));
                                  ("requestHeaders", request_headers resp);
                                  ("headers", response_headers resp);
                                  ("body", JStr b)]]) d
    end.

(** The override of [autoscaledPoolOptions.runTaskFunction]: it stamps the
    process-wide [latestRequestTaskTimeMeasure] before the original runs. *)
Definition runTaskFunction : M unit :=
  t ← Date_now;
  modify (set_latest (Some {| event := "crawlee internal run task"; time := t |})).

(** The override of [_runRequestHandler]: it stamps the job before the
    original runs. *)
Definition runRequestHandler_stamp (request : Request) : M Request :=
  let u := userData request in
  l ← push_measure "crawlee internal request handler" (timeMeasures u);
  mret (with_userData (with_timeMeasures l u) request).

(* --------------------------------------------------------------------- *)
(** *** The engine's treatment of one job *)
(* --------------------------------------------------------------------- *)

(** The engine is the [PlaywrightCrawler] of the crawlee library, which
    this repository configures and does not contain.  What follows is the
    library's treatment of the callbacks above, written down from the
    library and not from this repository: the pre-navigation hooks run
    before a navigation; an error that ends an attempt is classified by its
    class; [errorHandler] runs before a retry and [failedRequestHandler]
    when the job is not retried. *)

(** The classes of error the engine tells apart.  [SessionError] is a
    [RetryRequestError]; [CriticalError] is a [NonRetryableError]. *)
Inductive ErrorKind : Type :=
| OrdinaryError
| RetryRequestError
| SessionError
| NonRetryableError
| CriticalError.

#[global] Instance ErrorKind_eq_dec : EqDecision ErrorKind.
Proof. solve_decision. Defined.

(** What the label-specific handler does with a job it is given. *)
Inductive HandlerOutcome : Type :=
| Responds (status : Z) (payload : string)
| HandlerThrows (message : string).

(** How one attempt goes: for every stage of the lifecycle the message of
    the error it throws, if it throws, the class of that error, and what
    the engine knows about the page when the attempt has failed. *)
Record Attempt : Type := {
  pageOpen : option string;
  preNavigation : option string;
  navigation : option string;
  handler : HandlerOutcome;
  errorKind : ErrorKind;
  failureContext : FailureContext
}.

(** Modelled from the spec: router.ts, the [requestHandler] of the crawler,
    is not among the sources.  "Handling -> Succeeded occurs when the handler
    completes without throwing"; on terminal success the Result Dispatcher
    "looks up the Pending-Response Registry entry and emits the response". *)
Definition router (request : Request) (status : Z) (payload : string) : M unit :=
  dispatch (uniqueKey request) payload status.

(** One attempt, as the engine drives it: the two overrides stamp first,
    the page is opened, the hooks and the navigation run unless the request
    skips navigation, then the handler runs.  The result is the request as
    the attempt left it and the message of the error that ended it, if one
    did. *)
Definition run_attempt (a : Attempt) (request : Request) : M (Request * option string) :=
  runTaskFunction;;
  r1 ← runRequestHandler_stamp request;
  match pageOpen a with
  | Some m => mret (r1, Some m)
  | None =>
      nav ← (if skipNavigation r1 then mret (r1, None)
             else
               rp ← preNavigationHook r1;
               match preNavigation a with
               | Some m => mret (rp.1, Some m)
               | None => mret (rp.1, navigation a)
               end);
      match nav.2 with
      | Some m => mret (nav.1, Some m)
      | None =>
          match handler a with
          | HandlerThrows m => mret (nav.1, Some m)
          | Responds status payload =>
              router nav.1 status payload;;
              mret (nav.1, None)
          end
      end
  end.

(** The engine's [_canRequestBeRetried] (the source never sets
    [request.noRetry] or [request.maxRetries]): a non-retryable error is not
    retried; a session error is retried until the session has been rotated
    [maxSessionRotations] times, whatever the retry count; an explicit
    retry request is always retried; any other error is retried while
    [retryCount < maxRequestRetries]. *)
Definition can_retry (cr : Crawler) (request : Request) (kind : ErrorKind) : bool :=
  match kind with
  | NonRetryableError | CriticalError => false
  | SessionError => (sessionRotationCount request <? maxSessionRotations cr)%nat
  | RetryRequestError => true
  | OrdinaryError => (retryCount request <? maxRequestRetries cr)%nat
  end.

(** What became of an attempt that threw. *)
Inductive FailureOutcome : Type :=
| Retried (request : Request)
| GivenUp (request : Request)
| HandlerThrew (request : Request) (e : Error)
| Rethrown (request : Request).

(** The engine's [_requestFunctionErrorHandler]: a critical error is thrown
    on and reaches neither callback; a job that can be retried goes through
    [errorHandler], has its session rotated when the error is a session
    error, and has its retry counted; any other goes to
    [failedRequestHandler], whose own error the engine logs and drops. *)
Definition handle_failure (cr : Crawler) (request : Request) (kind : ErrorKind)
    (ctx : FailureContext) (err : string) : M FailureOutcome :=
  match kind with
  | CriticalError => mret (Rethrown request)
  | _ =>
      if can_retry cr request kind then
        r ← errorHandler request err;
        let rotated :=
          match kind with
          | SessionError => with_sessionRotationCount (S (sessionRotationCount r)) r
          | _ => r
          end in
        mret (Retried (with_retryCount (S (retryCount rotated)) rotated))
      else
        fun w =>
          match failedRequestHandler request ctx err w with
          | (Ok r, w') => (Ok (GivenUp r), w')
          | (Throw e, w') => (Ok (HandlerThrew (with_error_logged err request) e), w')
          end
  end.

(** How a job ends: answered by the handler, answered by
    [failedRequestHandler], left without an answer because
    [failedRequestHandler] threw, or with the engine brought down by an
    error it does not handle. *)
Inductive Terminal : Type :=
| Succeeded
| Failed
| Unanswered (e : Error)
| Crashed (e : Error).

(** A job from its first attempt to its terminal state; [attempts n] is how
    the attempt made at retry count [n] goes, and every unit of [fuel] pays
    for one attempt. *)
Fixpoint process (fuel : nat) (cr : Crawler) (attempts : nat -> Attempt) (request : Request)
    (w : World) : option (Terminal * Request * World) :=
  match fuel with
  | O => None
  | S n =>
      let a := attempts (retryCount request) in
      match run_attempt a request w with
      | (Throw e, w1) => Some (Crashed e, request, w1)
      | (Ok (r1, None), w1) => Some (Succeeded, r1, w1)
      | (Ok (r1, Some err), w1) =>
          match handle_failure cr r1 (errorKind a) (failureContext a) err w1 with
          | (Throw e, w2) => Some (Crashed e, r1, w2)
          | (Ok (Retried r2), w2) => process n cr attempts r2 w2
          | (Ok (GivenUp r2), w2) => Some (Failed, r2, w2)
          | (Ok (HandlerThrew r2 e), w2) => Some (Unanswered e, r2, w2)
          | (Ok (Rethrown r2), w2) => Some (Crashed (ExternalError err), r2, w2)
          end
      end
  end.

End Host.

(* ===================================================================== *)
(** ** Vocabulary of the specification *)
(* ===================================================================== *)

(** The upstream status of a failed job, when one is known: the recorded
    non-browser status for a job that skips navigation, the status of the
    final network response otherwise.  A missing value and the number 0
    (which JavaScript's truthiness test does not let through) count as not
    known. *)
Definition upstream_status (request : Request) (ctx : FailureContext) : option Z :=
  let source := if skipNavigation request
                then nonbrowserRequestStatus (userData request)
                else response_status ctx in
  match source with
  | Some n => if Z.eqb n 0 then None else Some n
  | None => None
  end.

(** The status the failure policy promises: 500, unless the job opted into
    transparent status codes and an upstream status is known. *)
Definition expected_failure_status (request : Request) (ctx : FailureContext) : Z :=
  match upstream_status request ctx with
  | Some n => if transparentStatusCode (userData request) then n else 500
  | None => 500
  end.


(** A ledger in chronological order. *)
Definition chronological (l : list TimeMeasure) : Prop :=
  StronglySorted (fun a b => time a <= time b) l.

(** A clock that never runs backwards. *)
Definition monotone (wallclock : nat -> Z) : Prop :=
  forall i j : nat, (i <= j)%nat -> wallclock i <= wallclock j.

(** A ledger stamped by the clock before its [n]-th reading. *)
Definition stamped_before (wallclock : nat -> Z) (n : nat) (l : list TimeMeasure) : Prop :=
  chronological l /\ Forall (fun e => exists i : nat, (i < n)%nat /\ time e = wallclock i) l.

(** Every handle stored in [crawlers] names a constructed crawler. *)
Definition handles_valid (w : World) : Prop :=
  forall (key : string) (c : nat), crawlers w !! key = Some c -> (c < length (instances w))%nat.

(** The unique keys the default queue holds. *)
Definition queued_keys (w : World) : list string :=
  map RequestOptions.uniqueKey (defaultQueue w).

(* --------------------------------------------------------------------- *)
(** *** Concrete jobs used to exercise the statements *)
(* --------------------------------------------------------------------- *)

Definition sample_userData : UserData :=
  {| requestDetails := {| requestErrors := []; responseHeaders := JUndefined; xhr := [] |};
     jsonResponse := true; inputtedUrl := "https://x"; parsedInputtedParams := JObj [];
     timeMeasures := []; transparentStatusCode := false; nonbrowserRequestStatus := None;
     blockResources := false; width := 1920; height := 1080;
     blockResourcePatterns := None |}.

Definition sample_options (key : string) : RequestOptions.t :=
  {| RequestOptions.uniqueKey := key; RequestOptions.url := "https://x";
     RequestOptions.label := BROWSER; RequestOptions.skipNavigation := false;
     RequestOptions.userData := Some sample_userData |}.

Definition sample_request (key : string) (retries : nat) : Request :=
  {| uniqueKey := key; url := "https://x"; label := BROWSER; skipNavigation := false;
     retryCount := retries; sessionRotationCount := 0; userData := sample_userData |}.

Definition sample_context : FailureContext :=
  {| response_status := None; page_cookies := CookiesResolve (JArr []) |}.

(** An attempt whose navigation throws. *)
Definition navigation_throws : Attempt :=
  {| pageOpen := None; preNavigation := None; navigation := Some "net::ERR_FAILED";
     handler := Responds 200 "ok"; errorKind := OrdinaryError;
     failureContext := sample_context |}.

Definition sample_clock (n : nat) : Z := 1000 + Z.of_nat n.

(** A world in which channel 7 waits under key "a". *)
Definition waiting_world : World := set_responses {[ "a" := 7%nat ]} empty_world.

(* --------------------------------------------------------------------- *)
(** *** Closed forms and intermediate worlds used in the statements *)
(* --------------------------------------------------------------------- *)

Definition stamp_handler (wallclock : nat -> Z) (w : World) : TimeMeasure :=
  {| event := "crawlee internal request handler"; time := wallclock (S (ticks w)) |}.

Definition stamp_hook (wallclock : nat -> Z) (w : World) : TimeMeasure :=
  {| event := "pre-navigation hook"; time := wallclock (S (S (ticks w))) |}.

Definition with_measures_added (added : list TimeMeasure) (request : Request) : Request :=
  with_userData
    (with_timeMeasures (timeMeasures (userData request) ++ added) (userData request)) request.

(** What one attempt leaves behind: the request with the stamps [added] to
    its ledger, the error [e] that ended it (if any), and the world [w1]. *)
Definition attempt_outcome (wallclock : nat -> Z) (a : Attempt) (request : Request)
    (w : World) (e : option string) (w1 : World) (added : list TimeMeasure) : Prop :=
  run_attempt wallclock a request w = (Ok (with_measures_added added request, e), w1)
  /\ (added = [stamp_handler wallclock w] /\ ticks w1 = S (S (ticks w))
      \/ added = [stamp_handler wallclock w; stamp_hook wallclock w]
         /\ ticks w1 = S (S (S (ticks w))))
  /\ crawlers w1 = crawlers w
  /\ instances w1 = instances w
  /\ defaultQueue w1 = defaultQueue w
  /\ match e with
     | Some _ => wire w1 = wire w /\ responses w1 = responses w
     | None =>
         match responses w !! uniqueKey request with
         | Some ch =>
             exists d, wire w1 = wire w ++ [d] /\ channel d = ch
                       /\ responses w1 = delete (uniqueKey request) (responses w)
         | None => wire w1 = wire w /\ responses w1 = responses w
         end
     end.

Definition errors_of (request : Request) : list RequestError :=
  requestErrors (requestDetails (userData request)).

(** The ledger entry and the marker that [addRequest] adds for a request
    that carries [userData]. *)
Definition queue_stamp (wallclock : nat -> Z) (w : World) (r : RequestOptions.t)
    : RequestOptions.t :=
  match RequestOptions.userData r with
  | Some u =>
      RequestOptions.with_userData
        (Some (with_timeMeasures
                 (timeMeasures u
                  ++ [{| event := "before queue add"; time := wallclock (ticks w) |}]) u)) r
  | None => r
  end.

Definition queue_stamp_effects (r : RequestOptions.t) : list Effect :=
  match RequestOptions.userData r with
  | Some _ => [TimingPushed (RequestOptions.uniqueKey r) "before queue add"]
  | None => []
  end.

(** The world after [requestQueue.addRequest] through crawler [c]. *)
Definition enqueued (c : nat) (r : RequestOptions.t) (w : World) : World :=
  record (Enqueued c (RequestOptions.uniqueKey r))
    (set_defaultQueue (queue_add r (defaultQueue w)) w).

(** The end of a call once its crawler [c] is known: the synchronous
    stretch [admission_stretch], then the awaited enqueue. *)
Definition after_admission (wallclock : nat -> Z) (c : nat) (k : Call) (w : World)
    : Call * World :=
  match admission_stretch wallclock k w with
  | (Throw e, w1) => (at_pc (Rejected e) k, w1)
  | (Ok r', w1) =>
      match enqueueFault (faults k) with
      | Some m => (at_pc (Rejected (ExternalError m)) (with_request r' k), w1)
      | None => (at_pc Returned (with_request r' k), enqueued c r' w1)
      end
  end.

(** The world once a crawler has been constructed for [o]. *)
Definition constructed (o : CrawlerOptions) (w : World) : World :=
  record (PoolConstructed (length (instances w)))
    (set_instances (instances w ++ [new_PlaywrightCrawler o]) w).

(** The world once the crawler [c] has been started, stored under the
    fingerprint of [o] and given its blank page. *)
Definition stored (o : CrawlerOptions) (c : nat) (w : World) : World :=
  let w1 := set_instances (alter run c (instances w)) w in
  let w2 := record (PoolStored (fingerprint o) c)
              (set_crawlers (<[fingerprint o := c]> (crawlers w1)) w1) in
  set_instances (alter newPage c (instances w2)) w2.

(** Pool resolution succeeds: a pool is stored for the configuration, or
    none of the awaited calls of [createAndStartCrawler] throws. *)
Definition pool_available (w : World) (o : CrawlerOptions) (f : Faults) : Prop :=
  is_Some (crawlers w !! fingerprint o)
  \/ (queueOpenFault f = None /\ proxyFault f = None /\ stopCapturingFault f = None).

(** Pool creation is needed and throws. *)
Definition creation_throws (w : World) (o : CrawlerOptions) (f : Faults) : Prop :=
  crawlers w !! fingerprint o = None
  /\ (is_Some (queueOpenFault f) \/ is_Some (proxyFault f) \/ is_Some (stopCapturingFault f)).

(** Two calls for the same configuration, the second arriving while the
    first is still constructing its crawler. *)
Definition racing_calls : System :=
  {| world := empty_world;
     calls := [new_call (sample_options "a") 7%nat DEFAULT_CRAWLER_OPTIONS no_faults;
               new_call (sample_options "b") 8%nat DEFAULT_CRAWLER_OPTIONS no_faults] |}.

Definition overlapping_schedule : list nat := [0; 0; 0; 1; 0; 0; 0; 1; 1; 1; 1; 1]%nat.

(* --------------------------------------------------------------------- *)
(** *** Vocabulary for the remaining code of crawlers.ts *)
(* --------------------------------------------------------------------- *)

(** A call of [createAndStartCrawler] run without interruption for at most
    [fuel] stretches. *)
Fixpoint run_create (fuel : nat) (f : Faults) (o : CrawlerOptions) (p : CreatePc) (w : World)
    : CreatePc * World :=
  match fuel with
  | O => (p, w)
  | S n =>
      match p with
      | Created _ | CreateFailed _ => (p, w)
      | _ =>
          let '(p', w') := createAndStartCrawler_step f o p w in
          run_create n f o p' w'
      end
  end.

(** [createAndStartCrawler(crawlerOptions)] called on its own and run to
    its end: four stretches are the whole function. *)
Definition createAndStartCrawler (f : Faults) (o : option CrawlerOptions) (w : World)
    : CreatePc * World :=
  run_create 4 f (crawlerOptions_or_default o) CreateEntry w.

(** The record the response listener pushes for an XHR response whose body
    could be read. *)
Definition xhr_record (resp : NetworkResponse) : option json :=
  if negb (String.eqb (resourceType resp) "xhr") then None
  else
    match body_text resp with
    | None => None
    | Some b =>
        Some (JObj [("url", JStr (request_url resp));
                    ("statusCode", JNum (response_status_code resp));
                    ("method", JStr (method resp));
                    ("requestHeaders", request_headers resp);
                    ("headers", response_headers resp);
                    ("body", JStr b)])
    end.

(** The listener runs once per response; it pushes when [resp.body()]
    resolves, so the pushes come in the order [completed] in which the
    bodies resolve. *)
Definition capture (completed : list NetworkResponse) (d : RequestDetails) : RequestDetails :=
  fold_left (fun d resp => onResponse resp d) completed d.

(** The failure envelope without its [initialStatusCode] property. *)
Definition envelope_without_status (request : Request) (cookies : json) (err : string)
    : list (string * json) :=
  [("body", JObj [("errorMessage", JStr err)]);
   ("cookies", if truthy cookies then cookies else JArr []);
   ("evaluateResults", JArr []);
   ("jsScenarioReport", JObj []);
   ("headers", let given := responseHeaders (requestDetails (userData request)) in
               if truthy given then given else JObj []);
   ("type", JStr "json");
   ("iframes", JArr []);
   ("xhr", JArr []);
   ("resolvedUrl", JStr EmptyString);
   ("screenshot", JNull)].

(** A job that asked for the raw result. *)
Definition plain_request : Request :=
  {| uniqueKey := "a"; url := "https://x"; label := BROWSER; skipNavigation := false;
     retryCount := 1; sessionRotationCount := 0;
     userData :=
       {| requestDetails := {| requestErrors := []; responseHeaders := JUndefined; xhr := [] |};
          jsonResponse := false; inputtedUrl := "https://x"; parsedInputtedParams := JObj [];
          timeMeasures := []; transparentStatusCode := false;
          nonbrowserRequestStatus := None; blockResources := false;
          width := 1920; height := 1080; blockResourcePatterns := None |} |}.

(** A job that skips navigation and has no recorded status. *)
Definition direct_request : Request :=
  {| uniqueKey := "a"; url := "https://x"; label := OtherLabel "DIRECT"; skipNavigation := true;
     retryCount := 1; sessionRotationCount := 0; userData := sample_userData |}.

(** How many 'error' events a ledger holds. *)
Definition error_events (l : list TimeMeasure) : nat :=
  length (filter (fun e => event e = "error") l).

(** The crawler [createAndStartCrawler] leaves behind for [o]: constructed
    with the options of the source, started, and holding its blank page. *)
Definition started_crawler (o : CrawlerOptions) : Crawler :=
  {| configuration := o; maxRequestRetries := 1; maxSessionRotations := 10;
     maxConcurrency := 1; keepAlive := true; useSessionPool := true;
     requestHandlerTimeoutSecs := 3600; started := true; blankPages := 1 |}.

(** None of the awaited calls of [createAndStartCrawler] throws. *)
Definition creation_faultless (f : Faults) : Prop :=
  queueOpenFault f = None /\ proxyFault f = None /\ stopCapturingFault f = None.

(** Faults that let the pool be created and make the enqueue throw. *)
Definition enqueue_fails : Faults :=
  {| queueOpenFault := None; proxyFault := None; stopCapturingFault := None;
     enqueueFault := Some "queue unavailable" |}.

(** A request that carries no [userData]. *)
Definition bare_options (key : string) : RequestOptions.t :=
  {| RequestOptions.uniqueKey := key; RequestOptions.url := "https://x";
     RequestOptions.label := BROWSER; RequestOptions.skipNavigation := false;
     RequestOptions.userData := None |}.

(** A second configuration. *)
Definition other_crawler_options : CrawlerOptions :=
  [("proxyConfigurationOptions", JObj [("useApifyProxy", JBool true)])].

(** Whether a call may still construct a crawler: it has not started, or
    it is in [createAndStartCrawler] before the construction. *)
Definition may_construct (k : Call) : nat :=
  match pc k with
  | Entry => 1
  | Creating CreateEntry => 1
  | Creating AwaitQueueOpen => 1
  | Creating AwaitProxyConfiguration => 1
  | _ => 0
  end.

(** Every pool the map hands out is a crawler that was started and built for
    a configuration with that key. *)
Definition pools_sound (w : World) : Prop :=
  forall (key : string) (c : nat),
    crawlers w !! key = Some c ->
    exists cr, instances w !! c = Some cr
               /\ started cr = true
               /\ fingerprint (configuration cr) = key.

(** A call that has constructed its crawler and not yet stored it holds
    the handle of a crawler built for its own configuration. *)
Definition call_sound (w : World) (k : Call) : Prop :=
  match pc k with
  | Creating (AwaitStopCapturing c) =>
      exists cr, instances w !! c = Some cr /\ configuration cr = crawlerOptions k
  | _ => True
  end.

(** The crawlers of [w] are still there in [w'], built for the same
    configuration, and those that were started still are. *)
Definition crawlers_kept (w w' : World) : Prop :=
  forall (c : nat) (cr : Crawler),
    instances w !! c = Some cr ->
    exists cr', instances w' !! c = Some cr'
                /\ configuration cr' = configuration cr
                /\ (started cr = true -> started cr' = true).


(** The object [failedRequestHandler] sends back, when it gets to send
    one: nothing when the cookie lookup of the [jsonResponse] branch
    throws. *)
Definition failure_result (request : Request) (ctx : FailureContext) (err : string)
    : option (list (string * json)) :=
  if jsonResponse (userData request) then
    match page_cookies ctx with
    | CookiesResolve cookies =>
        Some (VerboseResult.to_object (verboseResponse request ctx cookies err))
    | CookiesThrow _ => None
    end
  else Some (errorResponse err).


(** The request as [errorHandler] leaves it in world [w]. *)
Definition after_errorHandler (wallclock : nat -> Z) (request : Request) (err : string)
    (w : World) : Request :=
  with_userData
    (with_timeMeasures
       (timeMeasures (userData request)
        ++ [{| event := "error"; time := wallclock (ticks w) |}])
       (userData (with_error_logged err request)))
    request.

(** The request as the engine puts it back for a retry. *)
Definition put_back (kind : ErrorKind) (r : Request) : Request :=
  let rotated :=
    match kind with
    | SessionError => with_sessionRotationCount (S (sessionRotationCount r)) r
    | _ => r
    end in
  with_retryCount (S (retryCount rotated)) rotated.





(** The unique key of the job of a call. *)
Definition call_key (k : Call) : string := RequestOptions.uniqueKey (request k).

(** How many more times a call that finds or holds a stored crawler has to
    be resumed before it returns. *)
Definition stretches_left (k : Call) : nat :=
  match pc k with
  | Entry | Creating _ => 2
  | AwaitEnqueue _ => 1
  | Returned | Rejected _ => 0
  end.

(** A call for the configuration key [fp], for which crawler [c] is
    stored: it has not looked for its pool yet, or it holds [c], or it has
    returned after enqueuing its job through [c]; until it registers its
    channel its key is free, and its enqueue does not throw. *)
Definition shares (fp : string) (c : nat) (w : World) (k : Call) : Prop :=
  fingerprint (crawlerOptions k) = fp
  /\ enqueueFault (faults k) = None
  /\ match pc k with
     | Entry => responses w !! call_key k = None
     | Creating (Created c') => c' = c /\ responses w !! call_key k = None
     | AwaitEnqueue c' => c' = c
     | Returned => call_key k ∈ queued_keys w /\ Enqueued c (call_key k) ∈ journal w
     | _ => False
     end.

(** The calls in flight share the crawler [c] stored under [fp]; their
    jobs have different keys; the crawlers constructed so far are [built]. *)
Definition pool_shared (fp : string) (c : nat) (built : list Crawler) (s : System) : Prop :=
  crawlers (world s) !! fp = Some c
  /\ instances (world s) = built
  /\ NoDup (map call_key (calls s))
  /\ forall i k, calls s !! i = Some k -> shares fp c (world s) k.
(* ===================================================================== *)
(** ** Properties *)
(* ===================================================================== *)

Ltac run_m :=
  unfold mbind, M_bind, bind, mret, M_ret, ret, modify, throw in *.

(** *** [JSON.stringify] of an object *)

Lemma stringify_JObj (fields : list (string * json)) :
  stringify (JObj fields) = Some (stringify_object fields).
Proof. reflexivity. Qed.

(** *** The failure policy *)

Lemma dispatch_registered (key payload : string) (status : Z) (w : World) (ch : nat) :
  responses w !! key = Some ch ->
  dispatch key payload status w
  = (Ok tt, record (Dispatched key ch)
              (set_wire (wire w ++ [{| channel := ch; statusCode := status; body := payload |}])
                 (set_responses (delete key (responses w)) w))).
Proof. intros H. unfold dispatch. rewrite H. reflexivity. Qed.

Lemma dispatch_absent (key payload : string) (status : Z) (w : World) :
  responses w !! key = None -> dispatch key payload status w = (Ok tt, w).
Proof. intros H. unfold dispatch. rewrite H. reflexivity. Qed.

Lemma failure_statusCode_expected (request : Request) (ctx : FailureContext) :
  failure_statusCode (transparentStatusCode (userData request)) (responseStatusCode request ctx)
  = expected_failure_status request ctx.
Proof.
  unfold failure_statusCode, responseStatusCode, expected_failure_status, upstream_status, js_or.
  destruct (skipNavigation request);
    [destruct (nonbrowserRequestStatus (userData request)) as [n|]
    |destruct (response_status ctx) as [n|]];
    destruct (transparentStatusCode (userData request)); simpl; try reflexivity;
    destruct (Z.eqb n 0) eqn:E; simpl; rewrite ?E; reflexivity.
Qed.

(** When the cookie lookup of the [jsonResponse] branch throws, the handler
    throws before it logs or sends. *)
Lemma failedRequestHandler_throws (request : Request) (ctx : FailureContext) (err : string)
    (w : World) :
  failure_result request ctx err = None ->
  exists m, failedRequestHandler request ctx err w = (Throw (ExternalError m), w).
Proof.
  unfold failure_result, failedRequestHandler.
  destruct (jsonResponse (userData request)); [|discriminate].
  destruct (page_cookies ctx) as [m|v]; [|discriminate].
  intros _. exists m. reflexivity.
Qed.

(** What [failedRequestHandler] does when it gets to send [fields]. *)
Lemma failedRequestHandler_sends (request : Request) (ctx : FailureContext)
    (err : string) (w : World) (fields : list (string * json)) :
  failure_result request ctx err = Some fields ->
  failedRequestHandler request ctx err w
  = (let w1 := set_dataset
                 (dataset w ++ [{| logged_measures := timeMeasures (userData request);
                                   logged_url := inputtedUrl (userData request);
                                   logged_params := parsedInputtedParams (userData request);
                                   logged_result := JObj fields;
                                   logged_errors :=
                                     requestErrors
                                       (requestDetails (userData (with_error_logged err request)));
                                   logged_failed := true |}]) w in
     match dispatch (uniqueKey request) (stringify_object fields)
             (expected_failure_status request ctx) w1 with
     | (Ok _, w2) => (Ok (with_error_logged err request), w2)
     | (Throw e, w2) => (Throw e, w2)
     end).
Proof.
  unfold failure_result, failedRequestHandler, sendErrorResponseById, pushLogData.
  rewrite failure_statusCode_expected.
  destruct (jsonResponse (userData request)).
  - destruct (page_cookies ctx) as [m|v]; [discriminate|].
    intros [= <-]. run_m.
    destruct (dispatch _ _ _ _) as [[[]|e] w2]; reflexivity.
  - intros [= <-]. run_m.
    destruct (dispatch _ _ _ _) as [[[]|e] w2]; reflexivity.
Qed.

(** What [failedRequestHandler] does to a world in which the job's key is
    still registered. *)
Lemma failedRequestHandler_registered (request : Request) (ctx : FailureContext)
    (err : string) (w : World) (ch : nat) (fields : list (string * json)) :
  failure_result request ctx err = Some fields ->
  responses w !! uniqueKey request = Some ch ->
  exists w',
    failedRequestHandler request ctx err w = (Ok (with_error_logged err request), w')
    /\ wire w' = wire w ++ [{| channel := ch;
                               statusCode := expected_failure_status request ctx;
                               body := stringify_object fields |}]
    /\ responses w' = delete (uniqueKey request) (responses w)
    /\ crawlers w' = crawlers w /\ instances w' = instances w /\ ticks w' = ticks w
    /\ defaultQueue w' = defaultQueue w.
Proof.
  intros Hf H. rewrite (failedRequestHandler_sends _ _ _ _ _ Hf). cbv zeta.
  rewrite dispatch_registered with (ch := ch) by exact H.
  eexists. split; [reflexivity|]. simpl. repeat split.
Qed.


Lemma failure_result_sends (request : Request) (ctx : FailureContext) (err : string) :
  jsonResponse (userData request) = false
  \/ (exists cookies, page_cookies ctx = CookiesResolve cookies) ->
  exists fields, failure_result request ctx err = Some fields.
Proof.
  unfold failure_result. intros [H|[v H]].
  - rewrite H. eauto.
  - rewrite H. destruct (jsonResponse (userData request)); eauto.
Qed.

(** C3: on terminal failure the status written to the caller is 500, unless
    the job enabled transparent status codes and an upstream status is known
    (from [nonbrowserRequestStatus] for a job that skips navigation, from the
    final network response otherwise), in which case it is that status.  The
    status is computed so for every job; it is written to the caller when
    [failedRequestHandler] gets to send, that is for a job that asks for the
    raw result or whose cookie lookup resolves. *)
Theorem failure_status_policy (request : Request) (ctx : FailureContext) (err : string)
    (w : World) (ch : nat) :
  jsonResponse (userData request) = false
  \/ (exists cookies, page_cookies ctx = CookiesResolve cookies) ->
  responses w !! uniqueKey request = Some ch ->
  failure_statusCode (transparentStatusCode (userData request))
    (responseStatusCode request ctx)
  = match upstream_status request ctx with
    | Some upstream => if transparentStatusCode (userData request) then upstream else 500
    | None => 500
    end
  /\ exists r' w' d,
       failedRequestHandler request ctx err w = (Ok r', w')
       /\ wire w' = wire w ++ [d]
       /\ channel d = ch
       /\ statusCode d =
            match upstream_status request ctx with
            | Some upstream =>
                if transparentStatusCode (userData request) then upstream else 500
            | None => 500
            end.
Proof.
  intros Hs H. split; [apply failure_statusCode_expected|].
  destruct (failure_result_sends request ctx err Hs) as [fields Hf].
  destruct (failedRequestHandler_registered request ctx err w ch fields Hf H)
    as (w' & He & Hw & _).
  eexists _, w', _. split; [exact He|]. split; [exact Hw|]. split; reflexivity.
Qed.

Lemma failure_status_policy_witness :
  failure_statusCode false (responseStatusCode (sample_request "a" 1) sample_context) = 500
  /\ exists r' w' d,
       failedRequestHandler (sample_request "a" 1) sample_context "boom" waiting_world
       = (Ok r', w')
       /\ wire w' = wire waiting_world ++ [d]
       /\ channel d = 7%nat
       /\ statusCode d = 500.
Proof.
  apply (failure_status_policy (sample_request "a" 1) sample_context "boom" waiting_world 7%nat).
  - right. exists (JArr []). reflexivity.
  - reflexivity.
Defined.




(** *** Recording failed attempts *)

Lemma errorHandler_run (wallclock : nat -> Z) (request : Request) (err : string) (w : World) :
  errorHandler wallclock request err w
  = (Ok (after_errorHandler wallclock request err w), set_ticks (S (ticks w)) w).
Proof. reflexivity. Qed.

(** [failedRequestHandler] returns the request with its error logged, or
    throws and leaves the world as it was; it writes on the channel
    registered under the key of the job and on no other. *)
Lemma failedRequestHandler_run (request : Request) (ctx : FailureContext) (err : string)
    (w : World) :
  exists res w',
    failedRequestHandler request ctx err w = (res, w')
    /\ ticks w' = ticks w
    /\ crawlers w' = crawlers w
    /\ instances w' = instances w
    /\ defaultQueue w' = defaultQueue w
    /\ match res with
       | Ok r =>
           r = with_error_logged err request
           /\ is_Some (failure_result request ctx err)
           /\ match responses w !! uniqueKey request with
              | Some ch =>
                  exists d, wire w' = wire w ++ [d] /\ channel d = ch
                            /\ responses w' = delete (uniqueKey request) (responses w)
              | None => wire w' = wire w /\ responses w' = responses w
              end
       | Throw _ => failure_result request ctx err = None /\ w' = w
       end.
Proof.
  destruct (failure_result request ctx err) as [fields|] eqn:Hf.
  - destruct (responses w !! uniqueKey request) as [ch|] eqn:H.
    + destruct (failedRequestHandler_registered request ctx err w ch fields Hf H)
        as (w' & He & Hw & Hr & Hc & Hi & Ht & Hq).
      exists (Ok (with_error_logged err request)), w'.
      split; [exact He|]. repeat split; try assumption; eauto.
    + rewrite (failedRequestHandler_sends _ _ _ _ _ Hf). cbv zeta.
      rewrite dispatch_absent by exact H.
      eexists _, _. split; [reflexivity|]. simpl. repeat split; eauto.
  - destruct (failedRequestHandler_throws request ctx err w Hf) as [m Hm].
    eexists _, _. split; [exact Hm|]. repeat split.
Qed.

Lemma handle_failure_critical (wallclock : nat -> Z) (cr : Crawler) (request : Request)
    (ctx : FailureContext) (err : string) (w : World) :
  handle_failure wallclock cr request CriticalError ctx err w = (Ok (Rethrown request), w).
Proof. reflexivity. Qed.

Lemma handle_failure_retried (wallclock : nat -> Z) (cr : Crawler) (request : Request)
    (kind : ErrorKind) (ctx : FailureContext) (err : string) (w : World) :
  can_retry cr request kind = true ->
  handle_failure wallclock cr request kind ctx err w
  = (Ok (Retried (put_back kind (after_errorHandler wallclock request err w))),
     set_ticks (S (ticks w)) w).
Proof.
  intros H. unfold handle_failure.
  destruct kind; try discriminate H; rewrite H; reflexivity.
Qed.

Lemma handle_failure_given_up (wallclock : nat -> Z) (cr : Crawler) (request : Request)
    (kind : ErrorKind) (ctx : FailureContext) (err : string) (w : World) :
  kind <> CriticalError ->
  can_retry cr request kind = false ->
  handle_failure wallclock cr request kind ctx err w
  = match failedRequestHandler request ctx err w with
    | (Ok r, w') => (Ok (GivenUp r), w')
    | (Throw e, w') => (Ok (HandlerThrew (with_error_logged err request) e), w')
    end.
Proof.
  intros Hk H. unfold handle_failure.
  destruct kind; try congruence; rewrite H; reflexivity.
Qed.

Lemma put_back_facts (kind : ErrorKind) (r : Request) :
  retryCount (put_back kind r) = S (retryCount r)
  /\ userData (put_back kind r) = userData r
  /\ uniqueKey (put_back kind r) = uniqueKey r
  /\ skipNavigation (put_back kind r) = skipNavigation r
  /\ (sessionRotationCount (put_back kind r)
      = match kind with
        | SessionError => S (sessionRotationCount r)
        | _ => sessionRotationCount r
        end).
Proof. destruct kind; repeat split. Qed.

(** C5, as the code has it: whenever one of the two callbacks handles a
    failed attempt, the entry [{attempt: retryCount+1, message}] is added to
    the job's error log.  A failed attempt that is retried (handled by
    [errorHandler]) also adds an 'error' event to the timing ledger and
    delivers nothing.  An attempt that is not retried is handled by
    [failedRequestHandler], which adds no event to the ledger and is the
    only one to deliver; when its cookie lookup throws it delivers nothing.
    A critical error reaches neither callback: nothing is recorded and
    nothing is delivered. *)
Theorem failed_attempt_recording (wallclock : nat -> Z) (cr : Crawler) (request : Request)
    (kind : ErrorKind) (ctx : FailureContext) (err : string) (w : World) :
  exists out w',
    handle_failure wallclock cr request kind ctx err w = (Ok out, w')
    /\ let logged :=
         requestErrors (requestDetails (userData request))
         ++ [{| attempt := retryCount request + 1; errorMessage := err |}] in
       match out with
       | Retried r' =>
           can_retry cr request kind = true
           /\ requestErrors (requestDetails (userData r')) = logged
           /\ timeMeasures (userData r')
              = timeMeasures (userData request)
                ++ [{| event := "error"; time := wallclock (ticks w) |}]
           /\ retryCount r' = S (retryCount request)
           /\ wire w' = wire w /\ responses w' = responses w
       | GivenUp r' =>
           kind <> CriticalError /\ can_retry cr request kind = false
           /\ requestErrors (requestDetails (userData r')) = logged
           /\ timeMeasures (userData r') = timeMeasures (userData request)
           /\ retryCount r' = retryCount request
           /\ forall ch, responses w !! uniqueKey request = Some ch ->
                exists d, wire w' = wire w ++ [d] /\ channel d = ch
       | HandlerThrew r' _ =>
           kind <> CriticalError /\ can_retry cr request kind = false
           /\ failure_result request ctx err = None
           /\ requestErrors (requestDetails (userData r')) = logged
           /\ timeMeasures (userData r') = timeMeasures (userData request)
           /\ w' = w
       | Rethrown r' => kind = CriticalError /\ r' = request /\ w' = w
       end.
Proof.
  destruct (decide (kind = CriticalError)) as [->|Hk].
  { eexists _, _. split; [apply handle_failure_critical|]. repeat split. }
  destruct (can_retry cr request kind) eqn:Hc.
  - eexists _, _. split; [apply handle_failure_retried; exact Hc|]. cbv zeta.
    destruct (put_back_facts kind (after_errorHandler wallclock request err w))
      as (Hr & Hu & _).
    rewrite Hu, Hr. repeat split.
  - rewrite (handle_failure_given_up wallclock cr request kind ctx err w Hk Hc).
    destruct (failedRequestHandler_run request ctx err w)
      as (res & w' & He & _ & _ & _ & _ & Hres).
    rewrite He. destruct res as [r|e].
    + destruct Hres as (-> & _ & Hw).
      eexists _, _. split; [reflexivity|]. cbv zeta.
      split; [exact Hk|]. split; [reflexivity|]. split; [reflexivity|].
      split; [reflexivity|]. split; [reflexivity|].
      intros ch Hch. rewrite Hch in Hw. destruct Hw as (d & Hw & Hd & _). eauto.
    + destruct Hres as (Hf & ->).
      eexists _, _. split; [reflexivity|]. cbv zeta. repeat split; assumption.
Qed.

(** C5 as stated fails on the final attempt: a job whose two attempts
    both throw ends with two entries in its error log but a single 'error'
    event in its timing ledger, because the second failure is handled by
    [failedRequestHandler], which appends no timing event. *)
Lemma final_attempt_appends_no_error_event :
  exists r' w',
    process sample_clock 2 (new_PlaywrightCrawler DEFAULT_CRAWLER_OPTIONS)
      (fun _ => navigation_throws) (sample_request "a" 0) waiting_world
    = Some (Failed, r', w')
    /\ requestErrors (requestDetails (userData r'))
       = [{| attempt := 1; errorMessage := "net::ERR_FAILED" |};
          {| attempt := 2; errorMessage := "net::ERR_FAILED" |}]
    /\ timeMeasures (userData r')
       = [{| event := "crawlee internal request handler"; time := 1001 |};
          {| event := "pre-navigation hook"; time := 1002 |};
          {| event := "error"; time := 1003 |};
          {| event := "crawlee internal request handler"; time := 1005 |};
          {| event := "pre-navigation hook"; time := 1006 |}]
    /\ length (filter (fun e => event e = "error") (timeMeasures (userData r'))) = 1%nat.
Proof.
  eexists _, _. split; [vm_compute; reflexivity|].
  split; [reflexivity|]. split; [reflexivity|]. vm_compute. reflexivity.
Qed.

(** *** One attempt, in closed form *)

Lemma app_two {A : Type} (l : list A) (x y : A) : (l ++ [x]) ++ [y] = l ++ [x; y].
Proof. rewrite <- app_assoc. reflexivity. Qed.

Lemma run_attempt_facts (wallclock : nat -> Z) (a : Attempt) (request : Request) (w : World) :
  exists (e : option string) (w1 : World) (added : list TimeMeasure),
    attempt_outcome wallclock a request w e w1 added.
Proof.
  unfold attempt_outcome, run_attempt, runTaskFunction, runRequestHandler_stamp,
    preNavigationHook, push_measure, Date_now, router, dispatch.
  run_m. simpl.
  destruct (pageOpen a) as [m|].
  { eexists (Some m), _, _. split; [reflexivity|]. split; [left; split; reflexivity|].
    simpl. repeat split. }
  destruct (skipNavigation request) eqn:Hskip; simpl.
  - destruct (handler a) as [status payload|m]; simpl.
    + destruct (responses w !! uniqueKey request) as [ch|] eqn:Hreg; simpl.
      * eexists None, _, _. split; [reflexivity|]. split; [left; split; reflexivity|].
        simpl. repeat split. eexists. repeat split.
      * eexists None, _, _. split; [reflexivity|]. split; [left; split; reflexivity|].
        simpl. repeat split.
    + eexists (Some m), _, _. split; [reflexivity|]. split; [left; split; reflexivity|].
      simpl. repeat split.
  - destruct (preNavigation a) as [m|]; simpl.
    { eexists (Some m), _, _. unfold with_measures_added. rewrite <- app_two.
      split; [reflexivity|]. split; [right; split; reflexivity|]. simpl. repeat split. }
    destruct (navigation a) as [m|]; simpl.
    { eexists (Some m), _, _. unfold with_measures_added. rewrite <- app_two.
      split; [reflexivity|]. split; [right; split; reflexivity|]. simpl. repeat split. }
    destruct (handler a) as [status payload|m]; simpl.
    + destruct (responses w !! uniqueKey request) as [ch|] eqn:Hreg; simpl.
      * eexists None, _, _. unfold with_measures_added. rewrite <- app_two.
        split; [reflexivity|]. split; [right; split; reflexivity|].
        simpl. repeat split. eexists. repeat split.
      * eexists None, _, _. unfold with_measures_added. rewrite <- app_two.
        split; [reflexivity|]. split; [right; split; reflexivity|].
        simpl. repeat split.
    + eexists (Some m), _, _. unfold with_measures_added. rewrite <- app_two.
      split; [reflexivity|]. split; [right; split; reflexivity|]. simpl. repeat split.
Qed.

(** *** The engine's treatment of a failed attempt, in closed form *)

Lemma handle_failure_outcome (wallclock : nat -> Z) (cr : Crawler) (request : Request)
    (kind : ErrorKind) (ctx : FailureContext) (err : string) (w : World) :
  exists out w',
    handle_failure wallclock cr request kind ctx err w = (Ok out, w')
    /\ match out with
       | Retried r' =>
           can_retry cr request kind = true
           /\ r' = put_back kind (after_errorHandler wallclock request err w)
           /\ w' = set_ticks (S (ticks w)) w
       | GivenUp r' =>
           kind <> CriticalError /\ can_retry cr request kind = false
           /\ r' = with_error_logged err request
           /\ failedRequestHandler request ctx err w = (Ok r', w')
       | HandlerThrew r' e =>
           kind <> CriticalError /\ can_retry cr request kind = false
           /\ r' = with_error_logged err request
           /\ failedRequestHandler request ctx err w = (Throw e, w)
           /\ w' = w
       | Rethrown r' => kind = CriticalError /\ r' = request /\ w' = w
       end.
Proof.
  destruct (decide (kind = CriticalError)) as [->|Hk].
  { eexists _, _. split; [apply handle_failure_critical|]. repeat split. }
  destruct (can_retry cr request kind) eqn:Hc.
  - eexists _, _. split; [apply handle_failure_retried; exact Hc|]. repeat split.
  - rewrite (handle_failure_given_up wallclock cr request kind ctx err w Hk Hc).
    destruct (failedRequestHandler_run request ctx err w)
      as (res & w' & He & _ & _ & _ & _ & Hres).
    rewrite He. destruct res as [r|e].
    + destruct Hres as (-> & _). eexists _, _. split; [reflexivity|]. repeat split; assumption.
    + destruct Hres as (_ & ->). eexists _, _. split; [reflexivity|]. repeat split; assumption.
Qed.

(** *** Induction over the attempts of a job *)

Section ProcessInduction.

Variable wallclock : nat -> Z.
Variable cr : Crawler.
Variable attempts : nat -> Attempt.

(** [P] holds of the job whenever an attempt starts, [Q] of its terminal
    state. *)
Variable P : Request -> World -> Prop.
Variable Q : Terminal -> Request -> World -> Prop.

Hypothesis attempt_step :
  forall (request : Request) (w : World) (e : option string) (w1 : World)
         (added : list TimeMeasure),
    P request w ->
    attempt_outcome wallclock (attempts (retryCount request)) request w e w1 added ->
    match e with
    | None => Q Succeeded (with_measures_added added request) w1
    | Some err =>
        forall (out : FailureOutcome) (w2 : World),
          handle_failure wallclock cr (with_measures_added added request)
            (errorKind (attempts (retryCount request)))
            (failureContext (attempts (retryCount request))) err w1
          = (Ok out, w2) ->
          match out with
          | Retried r2 => P r2 w2
          | GivenUp r2 => Q Failed r2 w2
          | HandlerThrew r2 e => Q (Unanswered e) r2 w2
          | Rethrown r2 => Q (Crashed (ExternalError err)) r2 w2
          end
    end.

Lemma process_invariant :
  forall (fuel : nat) (request : Request) (w : World) (t : Terminal) (r' : Request)
         (w' : World),
    P request w ->
    process wallclock fuel cr attempts request w = Some (t, r', w') ->
    Q t r' w'.
Proof.
  induction fuel as [|fuel IH]; intros request w t r' w' HP Hrun; [discriminate|].
  simpl in Hrun.
  destruct (run_attempt_facts wallclock (attempts (retryCount request)) request w)
    as (e & w1 & added & Hout).
  pose proof (attempt_step request w e w1 added HP Hout) as Hstep.
  destruct Hout as (Heq & _).
  rewrite Heq in Hrun. destruct e as [err|].
  - destruct (handle_failure_outcome wallclock cr (with_measures_added added request)
                (errorKind (attempts (retryCount request)))
                (failureContext (attempts (retryCount request))) err w1)
      as (out & w2 & He & _).
    rewrite He in Hrun. specialize (Hstep out w2 He).
    destruct out as [r2|r2|r2 e|r2].
    + eapply IH; [exact Hstep|exact Hrun].
    + injection Hrun as <- <- <-. exact Hstep.
    + injection Hrun as <- <- <-. exact Hstep.
    + injection Hrun as <- <- <-. exact Hstep.
  - injection Hrun as <- <- <-. exact Hstep.
Qed.

End ProcessInduction.



(** *** The retry bound *)






(** *** Delivery *)


(** *** The timing ledger *)

Lemma chronological_snoc (l : list TimeMeasure) (e : TimeMeasure) :
  chronological l -> Forall (fun x => time x <= time e) l -> chronological (l ++ [e]).
Proof.
  unfold chronological. induction l as [|x l IH]; intros Hs Hall; simpl.
  - constructor; constructor.
  - inversion Hs as [|? ? Hs' Hx]; subst. inversion Hall as [|? ? Hxe Hall']; subst.
    constructor; [apply IH; assumption|].
    apply Forall_app. split; [exact Hx|]. constructor; [exact Hxe|constructor].
Qed.

Lemma stamped_weaken (wallclock : nat -> Z) (n m : nat) (l : list TimeMeasure) :
  stamped_before wallclock n l -> (n <= m)%nat -> stamped_before wallclock m l.
Proof.
  intros [Hs Hall] Hle. split; [exact Hs|].
  eapply Forall_impl; [exact Hall|]. intros e (i & Hi & He). exists i. split; [lia|exact He].
Qed.

Lemma stamped_push (wallclock : nat -> Z) (n m : nat) (l : list TimeMeasure) (ev : string) :
  monotone wallclock ->
  stamped_before wallclock n l -> (n <= m)%nat ->
  stamped_before wallclock (S m) (l ++ [{| event := ev; time := wallclock m |}]).
Proof.
  intros Hmono [Hs Hall] Hle. split.
  - apply chronological_snoc; [exact Hs|].
    eapply Forall_impl; [exact Hall|]. intros e (i & Hi & He). simpl. rewrite He.
    apply Hmono. lia.
  - apply Forall_app. split.
    + eapply Forall_impl; [exact Hall|]. intros e (i & Hi & He). exists i. split; [lia|exact He].
    + constructor; [|constructor]. exists m. split; [lia|reflexivity].
Qed.

Lemma ledger_invariant (wallclock : nat -> Z) (cr : Crawler) (attempts : nat -> Attempt)
    (before : list TimeMeasure) :
  monotone wallclock ->
  forall (fuel : nat) (request : Request) (w : World) (t : Terminal) (r' : Request)
         (w' : World),
    stamped_before wallclock (ticks w) (timeMeasures (userData request))
    /\ (exists added, timeMeasures (userData request) = before ++ added) ->
    process wallclock fuel cr attempts request w = Some (t, r', w') ->
    stamped_before wallclock (ticks w') (timeMeasures (userData r'))
    /\ (exists added, timeMeasures (userData r') = before ++ added).
Proof.
  intros Hmono.
  apply (process_invariant wallclock cr attempts
           (fun request w =>
              stamped_before wallclock (ticks w) (timeMeasures (userData request))
              /\ (exists added, timeMeasures (userData request) = before ++ added))
           (fun _ r' w' =>
              stamped_before wallclock (ticks w') (timeMeasures (userData r'))
              /\ (exists added, timeMeasures (userData r') = before ++ added))).
  intros request w e w1 added (Hst & prev & Hprev) (_ & Hadded & _).
  assert (Hafter : stamped_before wallclock (ticks w1)
                     (timeMeasures (userData (with_measures_added added request)))
                   /\ exists added', timeMeasures (userData (with_measures_added added request))
                                     = before ++ added').
  { simpl. split.
    - unfold stamp_handler, stamp_hook in Hadded.
      destruct Hadded as [[-> ->]|[-> ->]].
      + eapply stamped_push; [exact Hmono|exact Hst|lia].
      + rewrite <- app_two. eapply stamped_push; [exact Hmono| |apply Nat.le_refl].
        eapply stamped_push; [exact Hmono|exact Hst|lia].
    - exists (prev ++ added). rewrite Hprev, app_assoc. reflexivity. }
  destruct e as [err|]; [|exact Hafter].
  destruct Hafter as (Hst1 & prev1 & Hprev1). intros out w2 Hf.
  destruct (handle_failure_outcome wallclock cr (with_measures_added added request)
              (errorKind (attempts (retryCount request)))
              (failureContext (attempts (retryCount request))) err w1)
    as (out' & w2' & He & Hout).
  rewrite He in Hf. injection Hf as <- <-.
  destruct out' as [r2|r2|r2 e|r2].
  - destruct Hout as (_ & -> & ->).
    destruct (put_back_facts (errorKind (attempts (retryCount request)))
                (after_errorHandler wallclock (with_measures_added added request) err w1))
      as (_ & Hu & _).
    rewrite Hu. simpl. split.
    + eapply stamped_push; [exact Hmono|exact Hst1|lia].
    + simpl in Hprev1. exists (prev1 ++ [{| event := "error"; time := wallclock (ticks w1) |}]).
      rewrite Hprev1, app_assoc. reflexivity.
  - destruct Hout as (_ & _ & -> & Hfh).
    destruct (failedRequestHandler_run (with_measures_added added request)
                (failureContext (attempts (retryCount request))) err w1)
      as (res & w4 & He4 & Ht4 & _).
    rewrite Hfh in He4. injection He4 as <- <-.
    simpl. rewrite Ht4. split; [exact Hst1|]. exists prev1. exact Hprev1.
  - destruct Hout as (_ & _ & -> & _ & ->).
    simpl. split; [exact Hst1|]. exists prev1. exact Hprev1.
  - destruct Hout as (_ & -> & ->).
    split; [exact Hst1|]. exists prev1. exact Hprev1.
Qed.

(** *** Admission *)

Lemma stretch_duplicate (wallclock : nat -> Z) (k : Call) (w : World) (other : nat) :
  responses w !! RequestOptions.uniqueKey (request k) = Some other ->
  admission_stretch wallclock k w = (Throw (DuplicateKeyError (RequestOptions.uniqueKey (request k))), w).
Proof.
  intros H. unfold admission_stretch, addResponse. run_m. rewrite H. reflexivity.
Qed.

Lemma stretch_fresh (wallclock : nat -> Z) (k : Call) (w : World) :
  responses w !! RequestOptions.uniqueKey (request k) = None ->
  exists w',
    admission_stretch wallclock k w = (Ok (queue_stamp wallclock w (request k)), w')
    /\ responses w' = <[RequestOptions.uniqueKey (request k) := res k]> (responses w)
    /\ crawlers w' = crawlers w
    /\ instances w' = instances w
    /\ defaultQueue w' = defaultQueue w
    /\ wire w' = wire w
    /\ (ticks w <= ticks w')%nat
    /\ journal w' = journal w
                    ++ ChannelRegistered (RequestOptions.uniqueKey (request k)) (res k)
                       :: queue_stamp_effects (request k).
Proof.
  intros H. unfold admission_stretch, addResponse, push_before_queue_add, push_measure, Date_now,
    queue_stamp, queue_stamp_effects.
  run_m. rewrite H. destruct (RequestOptions.userData (request k)) as [u|]; simpl.
  - eexists. split; [reflexivity|]. simpl. repeat split; [lia|].
    rewrite <- app_assoc. reflexivity.
  - eexists. split; [reflexivity|]. simpl. repeat split. lia.
Qed.

Ltac call_step :=
  cbn [createAndStartCrawler_step run_call finished pc at_pc with_request new_call
         addRequest_step faults crawlerOptions request res].

Lemma addRequest_found (wallclock : nat -> Z) (r : RequestOptions.t) (ch : nat)
    (o : CrawlerOptions) (f : Faults) (w : World) (c : nat) :
  crawlers w !! fingerprint o = Some c ->
  addRequest wallclock r ch o f w
  = after_admission wallclock c (new_call r ch o f) (record (PoolFound (fingerprint o) c) w).
Proof.
  intros H. unfold addRequest, after_admission.
  call_step.
  rewrite H. unfold resume_with.
  destruct (admission_stretch wallclock _ _) as [[r'|e] w1].
  - cbn. destruct (enqueueFault f); reflexivity.
  - cbn. reflexivity.
Qed.

Lemma addRequest_missing (wallclock : nat -> Z) (r : RequestOptions.t) (ch : nat)
    (o : CrawlerOptions) (f : Faults) (w : World) :
  crawlers w !! fingerprint o = None ->
  addRequest wallclock r ch o f w
  = match queueOpenFault f with
    | Some m => (at_pc (Rejected (ExternalError m)) (new_call r ch o f), w)
    | None =>
        match proxyFault f with
        | Some m => (at_pc (Rejected (ExternalError m)) (new_call r ch o f), w)
        | None =>
            match stopCapturingFault f with
            | Some m =>
                (at_pc (Rejected (ExternalError m)) (new_call r ch o f), constructed o w)
            | None =>
                after_admission wallclock (length (instances w)) (new_call r ch o f)
                  (stored o (length (instances w)) (constructed o w))
            end
        end
    end.
Proof.
  intros H. unfold addRequest, after_admission.
  call_step.
  rewrite H.
  call_step.
  destruct (queueOpenFault f) as [m|]; [reflexivity|].
  call_step.
  destruct (proxyFault f) as [m|]; [reflexivity|].
  call_step.
  destruct (stopCapturingFault f) as [m|]; [reflexivity|].
  call_step.
  unfold resume_with.
  fold (constructed o w). fold (stored o (length (instances w)) (constructed o w)).
  destruct (admission_stretch wallclock _ _) as [[r'|e] w1].
  - cbn. destruct (enqueueFault f); reflexivity.
  - cbn. reflexivity.
Qed.

Lemma after_admission_duplicate (wallclock : nat -> Z) (c : nat) (k : Call) (w : World)
    (other : nat) :
  responses w !! RequestOptions.uniqueKey (request k) = Some other ->
  after_admission wallclock c k w
  = (at_pc (Rejected (DuplicateKeyError (RequestOptions.uniqueKey (request k)))) k, w).
Proof.
  intros H. unfold after_admission. rewrite (stretch_duplicate wallclock k w other H).
  reflexivity.
Qed.

Lemma after_admission_fresh (wallclock : nat -> Z) (c : nat) (k : Call) (w : World) :
  responses w !! RequestOptions.uniqueKey (request k) = None ->
  enqueueFault (faults k) = None ->
  exists w1,
    admission_stretch wallclock k w = (Ok (queue_stamp wallclock w (request k)), w1)
    /\ after_admission wallclock c k w
       = (at_pc Returned (with_request (queue_stamp wallclock w (request k)) k),
          enqueued c (queue_stamp wallclock w (request k)) w1).
Proof.
  intros Hfresh Hf.
  destruct (stretch_fresh wallclock k w Hfresh) as (w1 & He & _).
  exists w1. split; [exact He|]. unfold after_admission. rewrite He, Hf. reflexivity.
Qed.

(** C10: when pool creation throws inside [addRequest] (the queue cannot
    be opened, the proxy configuration cannot be created, or statistics
    capturing cannot be stopped), the call is rejected and the shared state
    is as before: the response registry and the pool map are unchanged,
    nothing was written to a caller, and the queue received no request.  When
    the throw comes before the crawler is constructed (as for a failing
    proxy configuration) the world is unchanged altogether. *)
Theorem failed_creation_admits_nothing (wallclock : nat -> Z) (r : RequestOptions.t)
    (ch : nat) (o : CrawlerOptions) (f : Faults) (w : World) (k : Call) (w' : World) :
  creation_throws w o f ->
  addRequest wallclock r ch o f w = (k, w') ->
  (exists m, pc k = Rejected (ExternalError m))
  /\ responses w' = responses w
  /\ crawlers w' = crawlers w
  /\ wire w' = wire w
  /\ defaultQueue w' = defaultQueue w
  /\ (is_Some (queueOpenFault f) \/ is_Some (proxyFault f) -> w' = w).
Proof.
  intros [Hnone Hfault] Hrun. rewrite addRequest_missing in Hrun by exact Hnone.
  destruct (queueOpenFault f) as [m|].
  { injection Hrun as <- <-. split; [exists m; reflexivity|]. repeat split. }
  destruct (proxyFault f) as [m|].
  { injection Hrun as <- <-. split; [exists m; reflexivity|]. repeat split. }
  destruct (stopCapturingFault f) as [m|].
  { injection Hrun as <- <-. split; [exists m; reflexivity|]. repeat split.
    intros [[? Hx]|[? Hx]]; discriminate. }
  destruct Hfault as [[? Hx]|[[? Hx]|[? Hx]]]; discriminate.
Qed.

Lemma failed_creation_admits_nothing_witness :
  let f := {| queueOpenFault := None; proxyFault := Some "proxy down";
              stopCapturingFault := None; enqueueFault := None |} in
  let result := addRequest sample_clock (sample_options "a") 7%nat DEFAULT_CRAWLER_OPTIONS f
                  empty_world in
  (exists m, pc result.1 = Rejected (ExternalError m))
  /\ responses result.2 = responses empty_world
  /\ crawlers result.2 = crawlers empty_world
  /\ wire result.2 = wire empty_world
  /\ defaultQueue result.2 = defaultQueue empty_world
  /\ (is_Some (queueOpenFault f) \/ is_Some (proxyFault f) -> result.2 = empty_world).
Proof.
  intros f result.
  apply (failed_creation_admits_nothing sample_clock (sample_options "a") 7%nat
           DEFAULT_CRAWLER_OPTIONS f empty_world result.1 result.2).
  - split; [reflexivity|]. right. left. eexists. reflexivity.
  - vm_compute. reflexivity.
Defined.

Lemma queue_add_holds (r : RequestOptions.t) (q : list RequestOptions.t) :
  RequestOptions.uniqueKey r ∈ map RequestOptions.uniqueKey (queue_add r q).
Proof.
  unfold queue_add. case_decide as H; [exact H|].
  rewrite map_app. apply elem_of_app. right. simpl. apply list_elem_of_here.
Qed.

Lemma queue_add_keeps (r : RequestOptions.t) (q : list RequestOptions.t) (key : string) :
  key ∈ map RequestOptions.uniqueKey q ->
  key ∈ map RequestOptions.uniqueKey (queue_add r q).
Proof.
  intros H. unfold queue_add. case_decide; [exact H|].
  rewrite map_app. apply elem_of_app. left. exact H.
Qed.

Lemma queue_stamp_key (wallclock : nat -> Z) (w : World) (r : RequestOptions.t) :
  RequestOptions.uniqueKey (queue_stamp wallclock w r) = RequestOptions.uniqueKey r.
Proof. unfold queue_stamp. destruct (RequestOptions.userData r); reflexivity. Qed.

(** What a call that returned did after its crawler [c] was known. *)
Lemma after_admission_returned (wallclock : nat -> Z) (c : nat) (k : Call) (w : World)
    (k' : Call) (w' : World) :
  after_admission wallclock c k w = (k', w') ->
  pc k' = Returned ->
  let key := RequestOptions.uniqueKey (request k) in
  responses w !! key = None
  /\ request k' = queue_stamp wallclock w (request k)
  /\ journal w' = journal w ++ ChannelRegistered key (res k)
                              :: queue_stamp_effects (request k) ++ [Enqueued c key]
  /\ responses w' = <[key := res k]> (responses w)
  /\ wire w' = wire w
  /\ crawlers w' = crawlers w
  /\ instances w' = instances w
  /\ defaultQueue w' = queue_add (queue_stamp wallclock w (request k)) (defaultQueue w)
  /\ key ∈ queued_keys w'
  /\ (forall key0, key0 ∈ queued_keys w -> key0 ∈ queued_keys w').
Proof.
  intros Hrun Hret key.
  destruct (responses w !! key) as [other|] eqn:Hreg.
  { rewrite (after_admission_duplicate wallclock c k w other Hreg) in Hrun.
    injection Hrun as <- <-. discriminate. }
  destruct (enqueueFault (faults k)) as [m|] eqn:Hf.
  { unfold after_admission in Hrun. destruct (admission_stretch wallclock k w) as [[r'|e] w1].
    - rewrite Hf in Hrun. injection Hrun as <- <-. discriminate.
    - injection Hrun as <- <-. discriminate. }
  destruct (stretch_fresh wallclock k w Hreg)
    as (w1 & He & Hr1 & Hc1 & Hi1 & Hq1 & Hw1 & _ & Hj1).
  unfold after_admission in Hrun. rewrite He, Hf in Hrun. injection Hrun as <- <-.
  split; [reflexivity|]. split; [reflexivity|].
  unfold enqueued, queued_keys. simpl. rewrite queue_stamp_key, Hq1. fold key.
  split. { rewrite Hj1. rewrite <- app_assoc. reflexivity. }
  split; [exact Hr1|]. split; [exact Hw1|]. split; [exact Hc1|]. split; [exact Hi1|].
  split; [reflexivity|]. split.
  - unfold key. rewrite <- (queue_stamp_key wallclock w (request k)). apply queue_add_holds.
  - intros key0 Hin. apply queue_add_keeps. exact Hin.
Qed.

Lemma stored_constructed_facts (o : CrawlerOptions) (w : World) :
  let w2 := stored o (length (instances w)) (constructed o w) in
  responses w2 = responses w
  /\ wire w2 = wire w
  /\ ticks w2 = ticks w
  /\ crawlers w2 = <[fingerprint o := length (instances w)]> (crawlers w)
  /\ length (instances w2) = S (length (instances w))
  /\ journal w2 = journal w ++ [PoolConstructed (length (instances w));
                                PoolStored (fingerprint o) (length (instances w))]
  /\ (forall c0 cr0, instances w !! c0 = Some cr0 ->
        instances w2 !! c0 = Some cr0)
  /\ defaultQueue w2 = defaultQueue w.
Proof.
  unfold stored, constructed. simpl. repeat split.
  - rewrite !length_alter, length_app. simpl. lia.
  - rewrite <- app_assoc. reflexivity.
  - intros c0 cr0 H. pose proof (lookup_lt_Some _ _ _ H) as Hlt.
    rewrite !list_lookup_alter_ne by lia. apply lookup_app_l_Some. exact H.
Qed.

Lemma queued_keys_stored (o : CrawlerOptions) (w : World) :
  queued_keys (stored o (length (instances w)) (constructed o w)) = queued_keys w.
Proof. reflexivity. Qed.

(** Everything a returned call of [addRequest] did. *)
Lemma addRequest_returned (wallclock : nat -> Z) (r : RequestOptions.t) (ch : nat)
    (o : CrawlerOptions) (f : Faults) (w : World) (k : Call) (w' : World) :
  addRequest wallclock r ch o f w = (k, w') ->
  pc k = Returned ->
  let key := RequestOptions.uniqueKey r in
  exists (c : nat) (resolve : list Effect),
    (crawlers w !! fingerprint o = Some c
     /\ resolve = [PoolFound (fingerprint o) c]
     /\ length (instances w') = length (instances w)
     \/ crawlers w !! fingerprint o = None
        /\ c = length (instances w)
        /\ resolve = [PoolConstructed c; PoolStored (fingerprint o) c]
        /\ length (instances w') = S (length (instances w)))
    /\ crawlers w' = <[fingerprint o := c]> (crawlers w)
    /\ journal w' = journal w ++ resolve
                    ++ ChannelRegistered key ch :: queue_stamp_effects r ++ [Enqueued c key]
    /\ request k = queue_stamp wallclock w r
    /\ responses w !! key = None
    /\ responses w' = <[key := ch]> (responses w)
    /\ wire w' = wire w
    /\ key ∈ queued_keys w'
    /\ (forall key0, key0 ∈ queued_keys w -> key0 ∈ queued_keys w')
    /\ defaultQueue w' = queue_add (queue_stamp wallclock w r) (defaultQueue w)
    /\ (handles_valid w -> handles_valid w').
Proof.
  intros Hrun Hret key.
  destruct (crawlers w !! fingerprint o) as [c|] eqn:Hpool.
  - rewrite (addRequest_found wallclock r ch o f w c Hpool) in Hrun.
    destruct (after_admission_returned wallclock c _ _ k w' Hrun Hret)
      as (Hfresh & Hreq & Hj & Hr & Hw & Hcr & Hlen & Hq & Hin & Hkeep).
    apply (f_equal (@length Crawler)) in Hlen.
    exists c, [PoolFound (fingerprint o) c].
    cbn [new_call request res record journal responses wire crawlers instances
           defaultQueue] in *.
    split; [left; repeat split; exact Hlen|].
    split. { rewrite Hcr. symmetry. apply insert_id. exact Hpool. }
    split. { rewrite Hj. rewrite <- app_assoc. reflexivity. }
    split; [exact Hreq|]. split; [exact Hfresh|]. split; [exact Hr|]. split; [exact Hw|].
    split; [exact Hin|]. split; [exact Hkeep|]. split; [exact Hq|].
    intros Hvalid key0 c0 H0. rewrite Hcr in H0. rewrite Hlen. eapply Hvalid. exact H0.
  - rewrite (addRequest_missing wallclock r ch o f w Hpool) in Hrun.
    destruct (queueOpenFault f); [injection Hrun as <- <-; discriminate|].
    destruct (proxyFault f); [injection Hrun as <- <-; discriminate|].
    destruct (stopCapturingFault f); [injection Hrun as <- <-; discriminate|].
    destruct (stored_constructed_facts o w) as (Hr2 & Hw2 & Ht2 & Hc2 & Hl2 & Hj2 & Hk2 & _).
    destruct (after_admission_returned wallclock (length (instances w)) _ _ k w' Hrun Hret)
      as (Hfresh & Hreq & Hj & Hr & Hw & Hcr & Hlen & Hq & Hin & Hkeep).
    apply (f_equal (@length Crawler)) in Hlen.
    exists (length (instances w)),
      [PoolConstructed (length (instances w)); PoolStored (fingerprint o) (length (instances w))].
    cbn [new_call request res] in Hfresh, Hreq, Hj, Hr, Hw, Hin, Hkeep, Hq.
    split. { right. repeat split. rewrite Hlen. exact Hl2. }
    split. { rewrite Hcr. exact Hc2. }
    split. { rewrite Hj, Hj2. rewrite <- app_assoc. reflexivity. }
    split; [exact Hreq|]. split; [exact Hfresh|]. split; [exact Hr|]. split; [exact Hw|].
    split; [exact Hin|].
    split; [exact Hkeep|]. split; [exact Hq|].
    intros Hvalid key0 c0 H0. rewrite Hcr, Hc2 in H0. rewrite Hlen, Hl2.
    destruct (decide (fingerprint o = key0)) as [<-|Hne].
    + rewrite lookup_insert_eq in H0. injection H0 as <-. lia.
    + rewrite lookup_insert_ne in H0 by exact Hne. pose proof (Hvalid _ _ H0). lia.
Qed.

(** A call whose external calls do not throw and whose key is free
    returns. *)
Lemma addRequest_returns (wallclock : nat -> Z) (r : RequestOptions.t) (ch : nat)
    (o : CrawlerOptions) (w : World) :
  responses w !! RequestOptions.uniqueKey r = None ->
  pc (addRequest wallclock r ch o no_faults w).1 = Returned.
Proof.
  intros Hfresh.
  destruct (crawlers w !! fingerprint o) as [c|] eqn:Hpool.
  - rewrite (addRequest_found wallclock r ch o no_faults w c Hpool).
    destruct (after_admission_fresh wallclock c (new_call r ch o no_faults)
                (record (PoolFound (fingerprint o) c) w)) as (w1 & _ & ->);
      [exact Hfresh|reflexivity|reflexivity].
  - rewrite (addRequest_missing wallclock r ch o no_faults w Hpool). simpl.
    destruct (after_admission_fresh wallclock (length (instances w))
                (new_call r ch o no_faults)
                (stored o (length (instances w)) (constructed o w))) as (w1 & _ & ->);
      [exact Hfresh|reflexivity|reflexivity].
Qed.


(** C7: admitting a job whose unique key is still registered is rejected
    with the duplicate-key error of the registry; the registered channel
    stays in place, nothing is written and nothing is enqueued.  When the
    pool of the configuration exists the rejection comes in the first
    synchronous stretch of the call. *)
Theorem duplicate_key_rejected (wallclock : nat -> Z) (r : RequestOptions.t) (ch : nat)
    (o : CrawlerOptions) (f : Faults) (w : World) (other : nat) (k : Call) (w' : World) :
  responses w !! RequestOptions.uniqueKey r = Some other ->
  pool_available w o f ->
  addRequest wallclock r ch o f w = (k, w') ->
  pc k = Rejected (DuplicateKeyError (RequestOptions.uniqueKey r))
  /\ responses w' = responses w
  /\ responses w' !! RequestOptions.uniqueKey r = Some other
  /\ wire w' = wire w
  /\ defaultQueue w' = defaultQueue w
  /\ (is_Some (crawlers w !! fingerprint o) ->
      pc (addRequest_step wallclock (new_call r ch o f) w).1
      = Rejected (DuplicateKeyError (RequestOptions.uniqueKey r))).
Proof.
  intros Hdup Havail Hrun.
  destruct (crawlers w !! fingerprint o) as [c|] eqn:Hpool.
  - rewrite (addRequest_found wallclock r ch o f w c Hpool) in Hrun.
    rewrite (after_admission_duplicate wallclock c _ _ other) in Hrun by exact Hdup.
    injection Hrun as <- <-. simpl. repeat split; try assumption.
    intros _. unfold addRequest_step. simpl. rewrite Hpool. unfold resume_with.
      rewrite (stretch_duplicate wallclock _ _ other) by exact Hdup. reflexivity.
  - destruct Havail as [[c Hc]|(Hq & Hp & Hs)]; [congruence|].
    rewrite (addRequest_missing wallclock r ch o f w Hpool), Hq, Hp, Hs in Hrun.
    rewrite (after_admission_duplicate wallclock _ _ _ other) in Hrun by exact Hdup.
    injection Hrun as <- <-. split; [reflexivity|]. split; [reflexivity|].
    split; [exact Hdup|]. split; [reflexivity|]. split; [reflexivity|].
    intros [? Hx]. discriminate.
Qed.

Lemma duplicate_key_rejected_witness :
  let result := addRequest sample_clock (sample_options "a") 8%nat DEFAULT_CRAWLER_OPTIONS
                  no_faults waiting_world in
  pc result.1 = Rejected (DuplicateKeyError "a")
  /\ responses result.2 = responses waiting_world
  /\ responses result.2 !! "a" = Some 7%nat
  /\ wire result.2 = wire waiting_world
  /\ defaultQueue result.2 = defaultQueue waiting_world
  /\ (is_Some (crawlers waiting_world !! fingerprint DEFAULT_CRAWLER_OPTIONS) ->
      pc (addRequest_step sample_clock
            (new_call (sample_options "a") 8%nat DEFAULT_CRAWLER_OPTIONS no_faults)
            waiting_world).1
      = Rejected (DuplicateKeyError "a")).
Proof.
  intros result.
  apply (duplicate_key_rejected sample_clock (sample_options "a") 8%nat DEFAULT_CRAWLER_OPTIONS
           no_faults waiting_world 7%nat result.1 result.2).
  - reflexivity.
  - right. repeat split.
  - vm_compute. reflexivity.
Defined.

Lemma handles_valid_empty : handles_valid empty_world.
Proof. intros key c H. unfold empty_world in H. simpl in H. rewrite lookup_empty in H. discriminate. Qed.

(** The effects of the end of a call, whatever its outcome, are an
    initial part of: register the channel, stamp the ledger, enqueue. *)
Lemma after_admission_journal (wallclock : nat -> Z) (c : nat) (k : Call) (w : World)
    (k' : Call) (w' : World) :
  after_admission wallclock c k w = (k', w') ->
  exists steps,
    journal w' = journal w ++ steps
    /\ steps `prefix_of`
         ChannelRegistered (RequestOptions.uniqueKey (request k)) (res k)
         :: queue_stamp_effects (request k)
            ++ [Enqueued c (RequestOptions.uniqueKey (request k))].
Proof.
  intros Hrun.
  destruct (responses w !! RequestOptions.uniqueKey (request k)) as [other|] eqn:Hreg.
  { rewrite (after_admission_duplicate wallclock c k w other Hreg) in Hrun.
    injection Hrun as <- <-. exists []. split; [rewrite app_nil_r; reflexivity|].
    apply prefix_nil. }
  destruct (stretch_fresh wallclock k w Hreg) as (w1 & He & _ & _ & _ & _ & _ & _ & Hj1).
  unfold after_admission in Hrun. rewrite He in Hrun.
  destruct (enqueueFault (faults k)) as [m|].
  - injection Hrun as <- <-. eexists. split; [exact Hj1|].
    exists [Enqueued c (RequestOptions.uniqueKey (request k))]. reflexivity.
  - injection Hrun as <- <-. unfold enqueued. simpl. rewrite queue_stamp_key, Hj1.
    eexists. split; [rewrite <- app_assoc; reflexivity|]. simpl. reflexivity.
Qed.

(** The effects of a call, whatever its outcome, are an initial part of:
    resolve the pool, register the channel, stamp the ledger, enqueue. *)
Lemma addRequest_journal (wallclock : nat -> Z) (r : RequestOptions.t) (ch : nat)
    (o : CrawlerOptions) (f : Faults) (w : World) (k : Call) (w' : World) :
  addRequest wallclock r ch o f w = (k, w') ->
  exists (c : nat) (resolve steps : list Effect),
    (crawlers w !! fingerprint o = Some c /\ resolve = [PoolFound (fingerprint o) c]
     \/ crawlers w !! fingerprint o = None
        /\ c = length (instances w)
        /\ resolve = [PoolConstructed c; PoolStored (fingerprint o) c])
    /\ journal w' = journal w ++ steps
    /\ steps `prefix_of`
         resolve ++ ChannelRegistered (RequestOptions.uniqueKey r) ch
                    :: queue_stamp_effects r ++ [Enqueued c (RequestOptions.uniqueKey r)].
Proof.
  intros Hrun.
  destruct (crawlers w !! fingerprint o) as [c|] eqn:Hpool.
  - rewrite (addRequest_found wallclock r ch o f w c Hpool) in Hrun.
    destruct (after_admission_journal wallclock c _ _ k w' Hrun) as (steps & Hj & rest & Hrest).
    cbn [new_call request res record journal] in Hj, Hrest.
    exists c, [PoolFound (fingerprint o) c], (PoolFound (fingerprint o) c :: steps).
    split; [left; split; reflexivity|].
    split. { rewrite Hj, <- app_assoc. reflexivity. }
    exists rest. simpl. rewrite Hrest. reflexivity.
  - rewrite (addRequest_missing wallclock r ch o f w Hpool) in Hrun.
    exists (length (instances w)),
      [PoolConstructed (length (instances w)); PoolStored (fingerprint o) (length (instances w))].
    destruct (queueOpenFault f).
    { injection Hrun as <- <-. exists []. split; [right; repeat split|].
      split; [rewrite app_nil_r; reflexivity|apply prefix_nil]. }
    destruct (proxyFault f).
    { injection Hrun as <- <-. exists []. split; [right; repeat split|].
      split; [rewrite app_nil_r; reflexivity|apply prefix_nil]. }
    destruct (stopCapturingFault f).
    { injection Hrun as <- <-. exists [PoolConstructed (length (instances w))].
      split; [right; repeat split|]. split; [reflexivity|].
      eexists. simpl. reflexivity. }
    destruct (after_admission_journal wallclock _ _ _ k w' Hrun) as (steps & Hj & rest & Hrest).
    destruct (stored_constructed_facts o w) as (_ & _ & _ & _ & _ & Hj2 & _ & _).
    cbn [new_call request res] in Hj, Hrest.
    exists ([PoolConstructed (length (instances w));
             PoolStored (fingerprint o) (length (instances w))] ++ steps).
    split; [right; repeat split|].
    split. { rewrite Hj, Hj2, <- app_assoc. reflexivity. }
    exists rest. rewrite Hrest, <- app_assoc. reflexivity.
Qed.



(** C9: with a clock that does not run backwards, the ledger of a job only
    grows and stays in chronological order from admission to its terminal
    state: [addRequest] appends to the ledger the job came with, the engine
    and the callbacks append to what was queued, and the timestamps of the
    final ledger are non-decreasing in append order. *)
Theorem ledger_append_only_chronological (wallclock : nat -> Z) (r : RequestOptions.t)
    (ch : nat) (o : CrawlerOptions) (f : Faults) (w : World) (k : Call) (w1 : World)
    (u : UserData) (job : Request) (cr : Crawler) (attempts : nat -> Attempt) (fuel : nat)
    (w2 : World) (t : Terminal) (job' : Request) (w3 : World) :
  monotone wallclock ->
  RequestOptions.userData r = Some u ->
  stamped_before wallclock (ticks w) (timeMeasures u) ->
  addRequest wallclock r ch o f w = (k, w1) ->
  pc k = Returned ->
  handles_valid w ->
  Request_of (request k) = Some job ->
  (ticks w1 <= ticks w2)%nat ->
  process wallclock fuel cr attempts job w2 = Some (t, job', w3) ->
  (exists added, timeMeasures (userData job)
                 = timeMeasures u ++ [{| event := "before queue add";
                                         time := wallclock (ticks w) |}]
                 /\ timeMeasures (userData job') = timeMeasures (userData job) ++ added)
  /\ chronological (timeMeasures (userData job))
  /\ chronological (timeMeasures (userData job')).
Proof.
  intros Hmono Hu Hst Hrun Hret Hvalid Hjob Hticks Hproc.
  destruct (addRequest_returned wallclock r ch o f w k w1 Hrun Hret)
    as (c & resolve & _ & _ & _ & Hreq & _).
  rewrite Hreq in Hjob. unfold queue_stamp, Request_of in Hjob. rewrite Hu in Hjob.
  simpl in Hjob. injection Hjob as <-. simpl.
  assert (Hticks1 : (S (ticks w) <= ticks w1)%nat).
  { clear Hproc. destruct (crawlers w !! fingerprint o) as [c0|] eqn:Hpool.
    - rewrite (addRequest_found wallclock r ch o f w c0 Hpool) in Hrun.
      unfold after_admission, admission_stretch, addResponse, push_before_queue_add, push_measure,
        Date_now in Hrun. run_m. simpl in Hrun. rewrite Hu in Hrun.
      destruct (responses w !! RequestOptions.uniqueKey r);
        [injection Hrun as <- <-; discriminate|].
      simpl in Hrun. destruct (enqueueFault f); injection Hrun as <- <-; simpl; lia.
    - rewrite (addRequest_missing wallclock r ch o f w Hpool) in Hrun.
      destruct (queueOpenFault f); [injection Hrun as <- <-; discriminate|].
      destruct (proxyFault f); [injection Hrun as <- <-; discriminate|].
      destruct (stopCapturingFault f); [injection Hrun as <- <-; discriminate|].
      unfold after_admission, admission_stretch, addResponse, push_before_queue_add, push_measure,
        Date_now in Hrun. run_m. simpl in Hrun. rewrite Hu in Hrun.
      destruct (responses w !! RequestOptions.uniqueKey r);
        [injection Hrun as <- <-; discriminate|].
      simpl in Hrun. destruct (enqueueFault f); injection Hrun as <- <-; simpl; lia. }
  assert (Hqueued : stamped_before wallclock (ticks w2)
                      (timeMeasures u ++ [{| event := "before queue add";
                                             time := wallclock (ticks w) |}])).
  { eapply stamped_weaken; [|exact (Nat.le_trans _ _ _ Hticks1 Hticks)].
    eapply stamped_push; [exact Hmono|exact Hst|apply Nat.le_refl]. }
  assert (Hstart : stamped_before wallclock (ticks w2)
                     (timeMeasures u ++ [{| event := "before queue add";
                                            time := wallclock (ticks w) |}])
                   /\ exists added,
                        timeMeasures u ++ [{| event := "before queue add";
                                              time := wallclock (ticks w) |}]
                        = (timeMeasures u ++ [{| event := "before queue add";
                                                 time := wallclock (ticks w) |}]) ++ added).
  { split; [exact Hqueued|]. exists []. rewrite app_nil_r. reflexivity. }
  pose proof (fun H => ledger_invariant wallclock cr attempts
                          (timeMeasures u ++ [{| event := "before queue add";
                                                 time := wallclock (ticks w) |}])
                          Hmono fuel _ w2 t job' w3 H Hproc) as Hinv.
  destruct (Hinv Hstart) as ((Hchron & _) & added & Hadded).
  split. { exists added. split; [reflexivity|exact Hadded]. }
  split; [apply Hqueued|exact Hchron].
Qed.

Lemma ledger_append_only_chronological_witness :
  let accepted := addRequest sample_clock (sample_options "a") 7%nat DEFAULT_CRAWLER_OPTIONS
                    no_faults empty_world in
  exists job t job' w3,
    Request_of (request accepted.1) = Some job
    /\ process sample_clock 2 (new_PlaywrightCrawler DEFAULT_CRAWLER_OPTIONS)
         (fun _ => navigation_throws) job accepted.2 = Some (t, job', w3)
    /\ (exists added, timeMeasures (userData job)
                      = timeMeasures sample_userData
                        ++ [{| event := "before queue add";
                               time := sample_clock (ticks empty_world) |}]
                      /\ timeMeasures (userData job') = timeMeasures (userData job) ++ added)
    /\ chronological (timeMeasures (userData job))
    /\ chronological (timeMeasures (userData job')).
Proof.
  intros accepted. eexists _, _, _, _.
  split; [vm_compute; reflexivity|]. split; [vm_compute; reflexivity|].
  eapply (ledger_append_only_chronological sample_clock (sample_options "a") 7%nat
            DEFAULT_CRAWLER_OPTIONS no_faults empty_world accepted.1 accepted.2
            sample_userData _ (new_PlaywrightCrawler DEFAULT_CRAWLER_OPTIONS)
            (fun _ => navigation_throws) 2%nat accepted.2 _ _ _).
  - intros i j Hij. unfold sample_clock. lia.
  - reflexivity.
  - split; constructor.
  - vm_compute. reflexivity.
  - vm_compute. reflexivity.
  - exact handles_valid_empty.
  - vm_compute. reflexivity.
  - apply Nat.le_refl.
  - vm_compute. reflexivity.
Defined.

(** *** One delivery per admitted job *)




(* ===================================================================== *)
(** ** Further properties of crawlers.ts *)
(* ===================================================================== *)

(** *** The configuration key *)

Lemma stringify_object_members (fields : list (string * json)) :
  stringify_object fields = "{" +:+ commas (members_text fields) +:+ "}".
Proof. reflexivity. Qed.

Lemma members_text_app (l1 l2 : list (string * json)) :
  members_text (l1 ++ l2) = members_text l1 ++ members_text l2.
Proof.
  induction l1 as [|[k x] l1 IH]; [reflexivity|].
  simpl. destruct (stringify x); simpl; rewrite IH; reflexivity.
Qed.

Lemma members_text_undefined (l1 l2 : list (string * json)) (k : string) :
  members_text (l1 ++ (k, JUndefined) :: l2) = members_text (l1 ++ l2).
Proof. rewrite !members_text_app. reflexivity. Qed.

(** The configurations used in this file respect the reading of [JObj]
    and [JNum]: no key occurs twice and every number prints in full. *)
Lemma configurations_proper :
  proper (JObj DEFAULT_CRAWLER_OPTIONS) = true
  /\ proper (JObj other_crawler_options) = true.
Proof. split; reflexivity. Qed.

(** X1: [JSON.stringify] leaves out a property whose value is [undefined],
    so two configurations that differ only by such a property have the same
    key in the pool map. *)
Theorem fingerprint_ignores_undefined (o1 o2 : CrawlerOptions) (k : string) :
  fingerprint (o1 ++ (k, JUndefined) :: o2) = fingerprint (o1 ++ o2).
Proof.
  unfold fingerprint. rewrite !stringify_object_members, members_text_undefined.
  reflexivity.
Qed.

(** *** What [failedRequestHandler] sends and records *)

(** X2: for a job that did not ask for the structured envelope, the body
    written to the caller on terminal failure is the JSON text of
    [{errorMessage}] alone, with the status of the failure policy. *)
Theorem plain_failure_body (request : Request) (ctx : FailureContext) (err : string)
    (w : World) (ch : nat) :
  jsonResponse (userData request) = false ->
  responses w !! uniqueKey request = Some ch ->
  exists r' w',
    failedRequestHandler request ctx err w = (Ok r', w')
    /\ wire w' = wire w
                 ++ [{| channel := ch;
                        statusCode := expected_failure_status request ctx;
                        body := "{" +:+ quote "errorMessage" +:+ ":" +:+ quote err +:+ "}" |}].
Proof.
  intros Hplain Hreg.
  assert (Hf : failure_result request ctx err = Some (errorResponse err)).
  { unfold failure_result. rewrite Hplain. reflexivity. }
  destruct (failedRequestHandler_registered request ctx err w ch _ Hf Hreg)
    as (w' & He & Hw & _).
  exists (with_error_logged err request), w'. split; [exact He|].
  rewrite Hw. reflexivity.
Qed.

Lemma plain_failure_body_witness :
  exists r' w',
    failedRequestHandler plain_request sample_context "boom" waiting_world = (Ok r', w')
    /\ wire w' = wire waiting_world
                 ++ [{| channel := 7%nat; statusCode := 500;
                        body := "{" +:+ quote "errorMessage" +:+ ":" +:+ quote "boom" +:+ "}" |}].
Proof.
  apply (plain_failure_body plain_request sample_context "boom" waiting_world 7%nat);
    reflexivity.
Defined.

(** X3: whether or not a channel is still registered for the job, when
    [failedRequestHandler] gets to send it hands the diagnostics sink
    exactly one record: the job's ledger, its input, the same result object
    whose text is sent, the error log with the entry of the final attempt,
    and the failure flag.  When the cookie lookup throws, it throws with
    nothing recorded and nothing sent. *)
Theorem failure_is_recorded (request : Request) (ctx : FailureContext) (err : string)
    (w : World) :
  exists res w',
    failedRequestHandler request ctx err w = (res, w')
    /\ match failure_result request ctx err with
       | Some fields =>
           exists r',
             res = Ok r'
             /\ dataset w'
                = dataset w
                  ++ [{| logged_measures := timeMeasures (userData request);
                         logged_url := inputtedUrl (userData request);
                         logged_params := parsedInputtedParams (userData request);
                         logged_result := JObj fields;
                         logged_errors := errors_of request
                                          ++ [{| attempt := retryCount request + 1;
                                                 errorMessage := err |}];
                         logged_failed := true |}]
             /\ errors_of r' = errors_of request
                               ++ [{| attempt := retryCount request + 1;
                                      errorMessage := err |}]
       | None => (exists m, res = Throw (ExternalError m)) /\ w' = w
       end.
Proof.
  destruct (failure_result request ctx err) as [fields|] eqn:Hf.
  - rewrite (failedRequestHandler_sends _ _ _ _ _ Hf). cbv zeta.
    unfold dispatch. simpl.
    destruct (responses w !! uniqueKey request);
      eexists _, _; (split; [reflexivity|]); eexists; (split; [reflexivity|]);
      simpl; split; reflexivity.
  - destruct (failedRequestHandler_throws request ctx err w Hf) as [m Hm].
    eexists _, _. split; [exact Hm|]. split; [exists m|]; reflexivity.
Qed.

(** X4: a job that skips navigation and has no recorded non-browser status
    makes [initialStatusCode] undefined, and [JSON.stringify] leaves the
    property out: when the cookie lookup resolves, the structured failure
    body sent to the caller has ten properties and no [initialStatusCode]. *)
Theorem envelope_drops_undefined_status (request : Request) (ctx : FailureContext)
    (err : string) (w : World) (ch : nat) (cookies : json) :
  jsonResponse (userData request) = true ->
  page_cookies ctx = CookiesResolve cookies ->
  skipNavigation request = true ->
  nonbrowserRequestStatus (userData request) = None ->
  responses w !! uniqueKey request = Some ch ->
  exists r' w' d,
    failedRequestHandler request ctx err w = (Ok r', w')
    /\ wire w' = wire w ++ [d]
    /\ channel d = ch
    /\ body d = stringify_object (envelope_without_status request cookies err)
    /\ keys (envelope_without_status request cookies err)
       = ["body"; "cookies"; "evaluateResults"; "jsScenarioReport"; "headers"; "type";
          "iframes"; "xhr"; "resolvedUrl"; "screenshot"].
Proof.
  intros Hjson Hc Hskip Hnone Hreg.
  assert (Hf : failure_result request ctx err
               = Some (VerboseResult.to_object (verboseResponse request ctx cookies err))).
  { unfold failure_result. rewrite Hjson, Hc. reflexivity. }
  destruct (failedRequestHandler_registered request ctx err w ch _ Hf Hreg)
    as (w' & He & Hw & _).
  eexists _, w', _. split; [exact He|]. split; [exact Hw|]. split; [reflexivity|].
  split; [|reflexivity]. simpl.
  unfold verboseResponse, VerboseResult.to_object, responseStatusCode.
  rewrite Hskip, Hnone.
  cbn [VerboseResult.body VerboseResult.cookies VerboseResult.evaluateResults
         VerboseResult.jsScenarioReport VerboseResult.headers VerboseResult.type
         VerboseResult.iframes VerboseResult.xhr VerboseResult.initialStatusCode
         VerboseResult.resolvedUrl VerboseResult.screenshot].
  unfold envelope_without_status, js_or, errorResponse, stringify_object.
  cbn [members_text]. cbn [stringify]. reflexivity.
Qed.

Lemma envelope_drops_undefined_status_witness :
  exists r' w' d,
    failedRequestHandler direct_request sample_context "boom" waiting_world = (Ok r', w')
    /\ wire w' = wire waiting_world ++ [d]
    /\ channel d = 7%nat
    /\ body d = stringify_object (envelope_without_status direct_request (JArr []) "boom")
    /\ keys (envelope_without_status direct_request (JArr []) "boom")
       = ["body"; "cookies"; "evaluateResults"; "jsScenarioReport"; "headers"; "type";
          "iframes"; "xhr"; "resolvedUrl"; "screenshot"].
Proof.
  apply (envelope_drops_undefined_status direct_request sample_context "boom" waiting_world
           7%nat (JArr [])); reflexivity.
Defined.

(** *** The response listener of the pre-navigation hook *)

Lemma onResponse_record (resp : NetworkResponse) (d : RequestDetails) :
  onResponse resp d
  = match xhr_record resp with
    | Some record => with_xhr (xhr d ++ [record]) d
    | None => d
    end.
Proof.
  unfold onResponse, xhr_record.
  destruct (negb (String.eqb (resourceType resp) "xhr")); [reflexivity|].
  destruct (body_text resp); reflexivity.
Qed.

(** X5: the capture log of a job receives, in the order in which the
    response bodies resolve, one record for every XHR response whose body
    could be read and nothing for any other response (a response of another
    resource type, or one whose body throws); the listener never touches the
    error log or the collected response headers. *)
Theorem xhr_capture_log (completed : list NetworkResponse) (d : RequestDetails) :
  xhr (capture completed d) = xhr d ++ omap xhr_record completed
  /\ requestErrors (capture completed d) = requestErrors d
  /\ responseHeaders (capture completed d) = responseHeaders d.
Proof.
  unfold capture. revert d. induction completed as [|resp rest IH]; intros d; simpl.
  - rewrite app_nil_r. repeat split.
  - destruct (IH (onResponse resp d)) as (Hx & He & Hh).
    rewrite Hx, He, Hh, onResponse_record.
    destruct (xhr_record resp) as [record|]; simpl.
    + rewrite <- app_assoc. repeat split.
    + repeat split.
Qed.

(** *** The stamps of one attempt *)

Lemma run_attempt_latest (wallclock : nat -> Z) (a : Attempt) (request : Request) (w : World) :
  latestRequestTaskTimeMeasure (run_attempt wallclock a request w).2
  = Some {| event := "crawlee internal run task"; time := wallclock (ticks w) |}.
Proof.
  unfold run_attempt, runTaskFunction, runRequestHandler_stamp, preNavigationHook,
    push_measure, Date_now, router, dispatch.
  run_m. simpl.
  destruct (pageOpen a); [reflexivity|].
  destruct (skipNavigation request); simpl.
  - destruct (handler a); simpl; [|reflexivity].
    destruct (responses w !! uniqueKey request); reflexivity.
  - destruct (preNavigation a); simpl; [reflexivity|].
    destruct (navigation a); simpl; [reflexivity|].
    destruct (handler a); simpl; [|reflexivity].
    destruct (responses w !! uniqueKey request); reflexivity.
Qed.

(** X6: every attempt overwrites the process-wide
    [latestRequestTaskTimeMeasure] with a 'crawlee internal run task' stamp
    read before any stamp the attempt puts on the job, whatever marker
    (possibly another job's) was there before; with a clock that does not
    run backwards the marker is not later than any of the attempt's stamps
    on the job's ledger. *)
Theorem run_task_marker (wallclock : nat -> Z) (a : Attempt) (request : Request) (w : World) :
  monotone wallclock ->
  exists e w1 added marker,
    run_attempt wallclock a request w = (Ok (with_measures_added added request, e), w1)
    /\ latestRequestTaskTimeMeasure w1 = Some marker
    /\ event marker = "crawlee internal run task"
    /\ time marker = wallclock (ticks w)
    /\ Forall (fun stamp => time marker <= time stamp) added.
Proof.
  intros Hmono.
  destruct (run_attempt_facts wallclock a request w) as (e & w1 & added & Heq & Hadded & _).
  exists e, w1, added, {| event := "crawlee internal run task"; time := wallclock (ticks w) |}.
  split; [exact Heq|].
  split. { pose proof (run_attempt_latest wallclock a request w) as H. rewrite Heq in H. exact H. }
  split; [reflexivity|]. split; [reflexivity|].
  unfold stamp_handler, stamp_hook in Hadded.
  destruct Hadded as [[-> _]|[-> _]]; repeat constructor; simpl; apply Hmono; lia.
Qed.

Lemma run_task_marker_witness :
  exists e w1 added marker,
    run_attempt sample_clock navigation_throws (sample_request "a" 0) waiting_world
    = (Ok (with_measures_added added (sample_request "a" 0), e), w1)
    /\ latestRequestTaskTimeMeasure w1 = Some marker
    /\ event marker = "crawlee internal run task"
    /\ time marker = sample_clock (ticks waiting_world)
    /\ Forall (fun stamp => time marker <= time stamp) added.
Proof.
  apply (run_task_marker sample_clock navigation_throws (sample_request "a" 0) waiting_world).
  intros i j Hij. unfold sample_clock. lia.
Defined.

(** *** The error log and the ledger of a finished job *)

Lemma attempts_numbered_invariant (wallclock : nat -> Z) (cr : Crawler)
    (attempts : nat -> Attempt) :
  forall (fuel : nat) (request : Request) (w : World) (t : Terminal) (r' : Request)
         (w' : World),
    map attempt (errors_of request) = seq 1 (retryCount request) ->
    process wallclock fuel cr attempts request w = Some (t, r', w') ->
    map attempt (errors_of r') = seq 1 (length (errors_of r')).
Proof.
  apply (process_invariant wallclock cr attempts
           (fun request _ => map attempt (errors_of request) = seq 1 (retryCount request))
           (fun _ r' _ => map attempt (errors_of r') = seq 1 (length (errors_of r')))).
  intros request w e w1 added HP _.
  assert (Hlen : length (errors_of request) = retryCount request).
  { rewrite <- (length_map attempt), HP. apply length_seq. }
  destruct e as [err|].
  - intros out w2 Hf.
    destruct (handle_failure_outcome wallclock cr (with_measures_added added request)
                (errorKind (attempts (retryCount request)))
                (failureContext (attempts (retryCount request))) err w1)
      as (out' & w2' & He & Hout).
    rewrite He in Hf. injection Hf as <- <-.
    destruct (put_back_facts (errorKind (attempts (retryCount request)))
                (after_errorHandler wallclock (with_measures_added added request) err w1))
      as (Hpr & Hpu & _).
    destruct out' as [r2|r2|r2 e|r2].
    + destruct Hout as (_ & -> & _).
      unfold errors_of in *. rewrite Hpu, Hpr. simpl. rewrite map_app, HP. simpl.
      rewrite Nat.add_1_r. symmetry. apply seq_S.
    + destruct Hout as (_ & _ & -> & _).
      unfold errors_of in *. simpl. rewrite map_app, length_app, HP, Hlen. simpl.
      rewrite !Nat.add_1_r. symmetry. apply seq_S.
    + destruct Hout as (_ & _ & -> & _).
      unfold errors_of in *. simpl. rewrite map_app, length_app, HP, Hlen. simpl.
      rewrite !Nat.add_1_r. symmetry. apply seq_S.
    + destruct Hout as (_ & -> & _).
      unfold errors_of in *. simpl. rewrite HP, Hlen. reflexivity.
  - unfold errors_of in *. simpl. rewrite HP, Hlen. reflexivity.
Qed.

(** X7: the entries of the error log of a finished job are numbered
    1, 2, ... in order: [errorHandler] and [failedRequestHandler] both number
    an entry [retryCount + 1], and the engine counts a retry between two
    entries. *)
Theorem attempts_numbered (wallclock : nat -> Z) (cr : Crawler) (attempts : nat -> Attempt)
    (fuel : nat) (request : Request) (w : World) (t : Terminal) (r' : Request) (w' : World) :
  retryCount request = 0%nat ->
  errors_of request = [] ->
  process wallclock fuel cr attempts request w = Some (t, r', w') ->
  map attempt (errors_of r') = seq 1 (length (errors_of r')).
Proof.
  intros Hretry Herrors Hrun.
  apply (attempts_numbered_invariant wallclock cr attempts fuel request w t r' w');
    [|exact Hrun].
  rewrite Hretry, Herrors. reflexivity.
Qed.

Lemma error_events_snoc (l : list TimeMeasure) (e : TimeMeasure) :
  error_events (l ++ [e])
  = (error_events l + if decide (event e = "error") then 1 else 0)%nat.
Proof.
  unfold error_events. rewrite filter_app, length_app. f_equal.
  rewrite filter_cons, filter_nil. case_decide; reflexivity.
Qed.

Lemma error_events_invariant (wallclock : nat -> Z) (cr : Crawler)
    (attempts : nat -> Attempt) (before : nat) :
  forall (fuel : nat) (request : Request) (w : World) (t : Terminal) (r' : Request)
         (w' : World),
    error_events (timeMeasures (userData request)) = (before + retryCount request)%nat ->
    process wallclock fuel cr attempts request w = Some (t, r', w') ->
    error_events (timeMeasures (userData r')) = (before + retryCount r')%nat.
Proof.
  apply (process_invariant wallclock cr attempts
           (fun request _ =>
              error_events (timeMeasures (userData request)) = (before + retryCount request)%nat)
           (fun _ r' _ =>
              error_events (timeMeasures (userData r')) = (before + retryCount r')%nat)).
  intros request w e w1 added HP (_ & Hadded & _).
  assert (Hafter : error_events (timeMeasures (userData (with_measures_added added request)))
                   = (before + retryCount request)%nat).
  { simpl. unfold stamp_handler, stamp_hook in Hadded.
    destruct Hadded as [[-> _]|[-> _]].
    - rewrite error_events_snoc, HP. simpl. lia.
    - rewrite <- app_two, !error_events_snoc, HP. simpl. lia. }
  destruct e as [err|]; [|exact Hafter].
  intros out w2 Hf.
  destruct (handle_failure_outcome wallclock cr (with_measures_added added request)
              (errorKind (attempts (retryCount request)))
              (failureContext (attempts (retryCount request))) err w1)
    as (out' & w2' & He & Hout).
  rewrite He in Hf. injection Hf as <- <-.
  destruct (put_back_facts (errorKind (attempts (retryCount request)))
              (after_errorHandler wallclock (with_measures_added added request) err w1))
    as (Hpr & Hpu & _).
  destruct out' as [r2|r2|r2 e|r2].
  - destruct Hout as (_ & -> & _).
    rewrite Hpu, Hpr. simpl. simpl in Hafter. rewrite error_events_snoc, Hafter. simpl. lia.
  - destruct Hout as (_ & _ & -> & _). exact Hafter.
  - destruct Hout as (_ & _ & -> & _). exact Hafter.
  - destruct Hout as (_ & -> & _). exact Hafter.
Qed.

(** X8: in the ledger of a finished job the number of 'error' events grew
    by the number of retries: one per attempt that was retried, none for
    the attempt that ended the job. *)
Theorem error_events_count_retries (wallclock : nat -> Z) (cr : Crawler)
    (attempts : nat -> Attempt) (fuel : nat) (request : Request) (w : World) (t : Terminal)
    (r' : Request) (w' : World) :
  retryCount request = 0%nat ->
  process wallclock fuel cr attempts request w = Some (t, r', w') ->
  error_events (timeMeasures (userData r'))
  = (error_events (timeMeasures (userData request)) + retryCount r')%nat.
Proof.
  intros Hretry Hrun.
  apply (error_events_invariant wallclock cr attempts
           (error_events (timeMeasures (userData request))) fuel request w t r' w');
    [|exact Hrun].
  rewrite Hretry. lia.
Qed.

Lemma attempts_numbered_witness :
  exists t r' w',
    process sample_clock 2 (new_PlaywrightCrawler DEFAULT_CRAWLER_OPTIONS)
      (fun _ => navigation_throws) (sample_request "a" 0) waiting_world = Some (t, r', w')
    /\ map attempt (errors_of r') = seq 1 (length (errors_of r')).
Proof.
  eexists _, _, _. split; [vm_compute; reflexivity|].
  eapply (attempts_numbered sample_clock (new_PlaywrightCrawler DEFAULT_CRAWLER_OPTIONS)
            (fun _ => navigation_throws) 2%nat (sample_request "a" 0) waiting_world).
  - reflexivity.
  - reflexivity.
  - vm_compute. reflexivity.
Defined.

Lemma error_events_count_retries_witness :
  exists t r' w',
    process sample_clock 2 (new_PlaywrightCrawler DEFAULT_CRAWLER_OPTIONS)
      (fun _ => navigation_throws) (sample_request "a" 0) waiting_world = Some (t, r', w')
    /\ error_events (timeMeasures (userData r'))
       = (error_events (timeMeasures (userData (sample_request "a" 0))) + retryCount r')%nat.
Proof.
  eexists _, _, _. split; [vm_compute; reflexivity|].
  eapply (error_events_count_retries sample_clock (new_PlaywrightCrawler DEFAULT_CRAWLER_OPTIONS)
            (fun _ => navigation_throws) 2%nat (sample_request "a" 0) waiting_world).
  - reflexivity.
  - vm_compute. reflexivity.
Defined.

(** *** [createAndStartCrawler] on its own *)

Lemma alter_snoc {A : Type} (g : A -> A) (l : list A) (x : A) :
  alter g (length l) (l ++ [x]) = l ++ [g x].
Proof. induction l as [|y l IH]; simpl; [reflexivity|]. f_equal. exact IH. Qed.

Lemma instances_stored_constructed (o : CrawlerOptions) (w : World) :
  instances (stored o (length (instances w)) (constructed o w))
  = instances w ++ [started_crawler o].
Proof.
  unfold stored, constructed. simpl. rewrite alter_snoc.
  rewrite alter_snoc. reflexivity.
Qed.

Lemma createAndStartCrawler_run (f : Faults) (o : CrawlerOptions) (w : World) :
  createAndStartCrawler f (Some o) w
  = match queueOpenFault f with
    | Some m => (CreateFailed (ExternalError m), w)
    | None =>
        match proxyFault f with
        | Some m => (CreateFailed (ExternalError m), w)
        | None =>
            match stopCapturingFault f with
            | Some m => (CreateFailed (ExternalError m), constructed o w)
            | None =>
                (Created (length (instances w)),
                 stored o (length (instances w)) (constructed o w))
            end
        end
    end.
Proof.
  unfold createAndStartCrawler.
  cbn [run_create createAndStartCrawler_step crawlerOptions_or_default].
  destruct (queueOpenFault f); [reflexivity|].
  cbn [run_create createAndStartCrawler_step].
  destruct (proxyFault f); [reflexivity|].
  cbn [run_create createAndStartCrawler_step].
  destruct (stopCapturingFault f); reflexivity.
Qed.

Lemma createAndStartCrawler_faultless (f : Faults) (o : CrawlerOptions) (w : World) :
  creation_faultless f ->
  exists w',
    createAndStartCrawler f (Some o) w = (Created (length (instances w)), w')
    /\ instances w' = instances w ++ [started_crawler o]
    /\ crawlers w' = <[fingerprint o := length (instances w)]> (crawlers w)
    /\ responses w' = responses w
    /\ wire w' = wire w
    /\ defaultQueue w' = defaultQueue w
    /\ journal w' = journal w ++ [PoolConstructed (length (instances w));
                                  PoolStored (fingerprint o) (length (instances w))].
Proof.
  intros (Hq & Hp & Hs). rewrite createAndStartCrawler_run, Hq, Hp, Hs.
  eexists. split; [reflexivity|].
  split; [apply instances_stored_constructed|]. repeat split.
  unfold stored, constructed. simpl. rewrite <- app_assoc. reflexivity.
Qed.

(** X9: when none of its awaited calls throws, [createAndStartCrawler]
    constructs one crawler for its options, calls [run()] on it, stores it
    under the serialization of the options and opens one blank page on it,
    in this order; it returns that crawler, and no other entry of the pool
    map, no registered channel, no earlier crawler and no request of the
    queue is touched. *)
Theorem createAndStartCrawler_result (f : Faults) (o : CrawlerOptions) (w : World) :
  creation_faultless f ->
  exists w' cr,
    createAndStartCrawler f (Some o) w = (Created (length (instances w)), w')
    /\ instances w' = instances w ++ [cr]
    /\ cr = newPage (run (new_PlaywrightCrawler o))
    /\ crawlers w' !! fingerprint o = Some (length (instances w))
    /\ (forall key, key <> fingerprint o -> crawlers w' !! key = crawlers w !! key)
    /\ journal w' = journal w ++ [PoolConstructed (length (instances w));
                                  PoolStored (fingerprint o) (length (instances w))]
    /\ responses w' = responses w
    /\ wire w' = wire w
    /\ defaultQueue w' = defaultQueue w.
Proof.
  intros Hf.
  destruct (createAndStartCrawler_faultless f o w Hf)
    as (w' & He & Hi & Hc & Hr & Hw & Hq & Hj).
  exists w', (started_crawler o). split; [exact He|]. split; [exact Hi|].
  split; [reflexivity|]. split. { rewrite Hc. apply lookup_insert_eq. }
  split. { intros key Hne. rewrite Hc. apply lookup_insert_ne. congruence. }
  repeat split; assumption.
Qed.

Lemma createAndStartCrawler_result_witness :
  exists w' cr,
    createAndStartCrawler no_faults (Some DEFAULT_CRAWLER_OPTIONS) waiting_world
    = (Created (length (instances waiting_world)), w')
    /\ instances w' = instances waiting_world ++ [cr]
    /\ cr = newPage (run (new_PlaywrightCrawler DEFAULT_CRAWLER_OPTIONS))
    /\ crawlers w' !! fingerprint DEFAULT_CRAWLER_OPTIONS
       = Some (length (instances waiting_world))
    /\ (forall key, key <> fingerprint DEFAULT_CRAWLER_OPTIONS ->
          crawlers w' !! key = crawlers waiting_world !! key)
    /\ journal w'
       = journal waiting_world
         ++ [PoolConstructed (length (instances waiting_world));
             PoolStored (fingerprint DEFAULT_CRAWLER_OPTIONS)
               (length (instances waiting_world))]
    /\ responses w' = responses waiting_world
    /\ wire w' = wire waiting_world
    /\ defaultQueue w' = defaultQueue waiting_world.
Proof.
  apply (createAndStartCrawler_result no_faults DEFAULT_CRAWLER_OPTIONS waiting_world).
  repeat split.
Defined.

(** X10: [createAndStartCrawler] does not look into the pool map: called
    for a configuration that already has a pool, it constructs a second
    crawler and stores it over the entry; the first crawler is left as it
    was and is no longer reachable through the map, and the queue, which
    both crawlers hold, keeps its requests. *)
Theorem createAndStartCrawler_never_reuses (f : Faults) (o : CrawlerOptions) (w : World)
    (c0 : nat) (cr0 : Crawler) :
  creation_faultless f ->
  crawlers w !! fingerprint o = Some c0 ->
  instances w !! c0 = Some cr0 ->
  exists c w',
    createAndStartCrawler f (Some o) w = (Created c, w')
    /\ c <> c0
    /\ length (instances w') = S (length (instances w))
    /\ crawlers w' !! fingerprint o = Some c
    /\ instances w' !! c = Some (started_crawler o)
    /\ instances w' !! c0 = Some cr0
    /\ defaultQueue w' = defaultQueue w.
Proof.
  intros Hf Hstored Hc0.
  destruct (createAndStartCrawler_faultless f o w Hf)
    as (w' & He & Hi & Hc & _ & _ & Hq & _).
  pose proof (lookup_lt_Some _ _ _ Hc0) as Hlt.
  exists (length (instances w)), w'. split; [exact He|]. split; [lia|].
  split. { rewrite Hi, length_app. simpl. lia. }
  split. { rewrite Hc. apply lookup_insert_eq. }
  split. { rewrite Hi. apply list_lookup_middle. reflexivity. }
  split; [|exact Hq]. rewrite Hi. apply lookup_app_l_Some. exact Hc0.
Qed.

Lemma createAndStartCrawler_never_reuses_witness :
  let w := (createAndStartCrawler no_faults (Some DEFAULT_CRAWLER_OPTIONS) empty_world).2 in
  exists c w',
    createAndStartCrawler no_faults (Some DEFAULT_CRAWLER_OPTIONS) w = (Created c, w')
    /\ c <> 0%nat
    /\ length (instances w') = S (length (instances w))
    /\ crawlers w' !! fingerprint DEFAULT_CRAWLER_OPTIONS = Some c
    /\ instances w' !! c = Some (started_crawler DEFAULT_CRAWLER_OPTIONS)
    /\ instances w' !! 0%nat = Some (started_crawler DEFAULT_CRAWLER_OPTIONS)
    /\ defaultQueue w' = defaultQueue w.
Proof.
  intros w.
  apply (createAndStartCrawler_never_reuses no_faults DEFAULT_CRAWLER_OPTIONS w 0%nat
           (started_crawler DEFAULT_CRAWLER_OPTIONS)).
  - repeat split.
  - vm_compute. reflexivity.
  - vm_compute. reflexivity.
Defined.

(** *** Edges of [addRequest] *)

Lemma alter_same {A : Type} (g : A -> A) (l : list A) (c : nat) (x : A) :
  l !! c = Some x -> g x = x -> alter g c l = l.
Proof.
  revert c. induction l as [|y l IH]; intros [|c] Hc Hg; simpl in *; try discriminate.
  - injection Hc as ->. rewrite Hg. reflexivity.
  - f_equal. apply (IH c); assumption.
Qed.

Lemma after_admission_enqueue_fault (wallclock : nat -> Z) (c : nat) (k : Call) (w : World)
    (m : string) :
  responses w !! RequestOptions.uniqueKey (request k) = None ->
  enqueueFault (faults k) = Some m ->
  exists w1,
    after_admission wallclock c k w
    = (at_pc (Rejected (ExternalError m)) (with_request (queue_stamp wallclock w (request k)) k),
       w1)
    /\ responses w1 = <[RequestOptions.uniqueKey (request k) := res k]> (responses w)
    /\ instances w1 = instances w
    /\ wire w1 = wire w
    /\ defaultQueue w1 = defaultQueue w.
Proof.
  intros Hfresh Hf.
  destruct (stretch_fresh wallclock k w Hfresh) as (w1 & He & Hr & _ & Hi & Hq & Hw & _).
  exists w1. unfold after_admission. rewrite He, Hf. repeat split; assumption.
Qed.

(** X11: [addRequest] registers the channel before it awaits the enqueue
    and has no handler around it: when the queue's [addRequest] throws, the
    call is rejected with that error, the queue is as it was, nothing is
    written to the caller, and the channel stays registered under the job's
    key. *)
Theorem enqueue_failure_leaves_channel (wallclock : nat -> Z) (r : RequestOptions.t)
    (ch : nat) (o : CrawlerOptions) (f : Faults) (w : World) (m : string) (k : Call)
    (w' : World) :
  responses w !! RequestOptions.uniqueKey r = None ->
  pool_available w o f ->
  enqueueFault f = Some m ->
  addRequest wallclock r ch o f w = (k, w') ->
  pc k = Rejected (ExternalError m)
  /\ responses w' !! RequestOptions.uniqueKey r = Some ch
  /\ wire w' = wire w
  /\ defaultQueue w' = defaultQueue w.
Proof.
  intros Hfresh Havail Hf Hrun.
  destruct (crawlers w !! fingerprint o) as [c|] eqn:Hpool.
  - rewrite (addRequest_found wallclock r ch o f w c Hpool) in Hrun.
    destruct (after_admission_enqueue_fault wallclock c (new_call r ch o f)
                (record (PoolFound (fingerprint o) c) w) m Hfresh Hf)
      as (w1 & He & Hr & Hi & Hw & Hq).
    rewrite He in Hrun. injection Hrun as <- <-.
    split; [reflexivity|]. split; [rewrite Hr; apply lookup_insert_eq|].
    split; [exact Hw|exact Hq].
  - destruct Havail as [[c Hc]|(Hq & Hp & Hs)]; [congruence|].
    rewrite (addRequest_missing wallclock r ch o f w Hpool), Hq, Hp, Hs in Hrun.
    destruct (after_admission_enqueue_fault wallclock (length (instances w))
                (new_call r ch o f) (stored o (length (instances w)) (constructed o w)) m
                Hfresh Hf) as (w1 & He & Hr & Hi & Hw & Hq1).
    rewrite He in Hrun. injection Hrun as <- <-.
    split; [reflexivity|]. split; [rewrite Hr; apply lookup_insert_eq|].
    split; [exact Hw|exact Hq1].
Qed.

Lemma enqueue_failure_leaves_channel_witness :
  let result := addRequest sample_clock (sample_options "a") 7%nat DEFAULT_CRAWLER_OPTIONS
                  enqueue_fails empty_world in
  pc result.1 = Rejected (ExternalError "queue unavailable")
  /\ responses result.2 !! "a" = Some 7%nat
  /\ wire result.2 = wire empty_world
  /\ defaultQueue result.2 = defaultQueue empty_world.
Proof.
  intros result.
  apply (enqueue_failure_leaves_channel sample_clock (sample_options "a") 7%nat
           DEFAULT_CRAWLER_OPTIONS enqueue_fails empty_world "queue unavailable"
           result.1 result.2).
  - reflexivity.
  - right. repeat split.
  - reflexivity.
  - vm_compute. reflexivity.
Defined.

(** X12: [addRequest] resolves the pool before it registers the channel
    and enqueues: for a configuration that has no pool yet and whose pool
    creation does not throw, the call leaves a started crawler for the
    configuration stored in the pool map whatever happens afterwards, also
    when the call itself is rejected. *)
Theorem pool_survives_rejected_admission (wallclock : nat -> Z) (r : RequestOptions.t)
    (ch : nat) (o : CrawlerOptions) (f : Faults) (w : World) (k : Call) (w' : World) :
  crawlers w !! fingerprint o = None ->
  creation_faultless f ->
  addRequest wallclock r ch o f w = (k, w') ->
  crawlers w' !! fingerprint o = Some (length (instances w))
  /\ length (instances w') = S (length (instances w))
  /\ exists cr, instances w' !! length (instances w) = Some cr
                /\ started cr = true
                /\ configuration cr = o.
Proof.
  intros Hpool (Hq & Hp & Hs) Hrun.
  rewrite (addRequest_missing wallclock r ch o f w Hpool), Hq, Hp, Hs in Hrun.
  pose proof (instances_stored_constructed o w) as Hi0.
  assert (Hc0 : crawlers (stored o (length (instances w)) (constructed o w))
                !! fingerprint o = Some (length (instances w))).
  { unfold stored, constructed. simpl. apply lookup_insert_eq. }
  assert (Hl0 : instances (stored o (length (instances w)) (constructed o w))
                !! length (instances w) = Some (started_crawler o)).
  { rewrite Hi0. apply list_lookup_middle. reflexivity. }
  destruct (responses (stored o (length (instances w)) (constructed o w))
              !! RequestOptions.uniqueKey (request (new_call r ch o f))) as [other|] eqn:Hreg.
  - rewrite (after_admission_duplicate wallclock _ _ _ other Hreg) in Hrun.
    injection Hrun as <- <-. split; [exact Hc0|].
    split. { rewrite Hi0, length_app. simpl. lia. }
    exists (started_crawler o). split; [exact Hl0|]. split; reflexivity.
  - destruct (stretch_fresh wallclock _ _ Hreg) as (w1 & He & _ & Hc1 & Hi1 & _).
    unfold after_admission in Hrun. rewrite He in Hrun.
    destruct (enqueueFault (faults (new_call r ch o f))); injection Hrun as <- <-.
    + split; [rewrite Hc1; exact Hc0|].
      split. { rewrite Hi1, Hi0, length_app. simpl. lia. }
      exists (started_crawler o). rewrite Hi1. split; [exact Hl0|]. split; reflexivity.
    + unfold enqueued. simpl. split; [rewrite Hc1; exact Hc0|].
      split. { rewrite Hi1, Hi0, length_app. simpl. lia. }
      exists (started_crawler o). rewrite Hi1. split; [exact Hl0|]. split; reflexivity.
Qed.

Lemma pool_survives_rejected_admission_witness :
  let result := addRequest sample_clock (sample_options "a") 8%nat DEFAULT_CRAWLER_OPTIONS
                  no_faults waiting_world in
  crawlers result.2 !! fingerprint DEFAULT_CRAWLER_OPTIONS
  = Some (length (instances waiting_world))
  /\ length (instances result.2) = S (length (instances waiting_world))
  /\ exists cr, instances result.2 !! length (instances waiting_world) = Some cr
                /\ started cr = true
                /\ configuration cr = DEFAULT_CRAWLER_OPTIONS.
Proof.
  intros result.
  apply (pool_survives_rejected_admission sample_clock (sample_options "a") 8%nat
           DEFAULT_CRAWLER_OPTIONS no_faults waiting_world result.1 result.2).
  - reflexivity.
  - repeat split.
  - vm_compute. reflexivity.
Defined.

(** X13: the timing push of [addRequest] is guarded by [?.]: a request
    without [userData] is registered and enqueued as it came, and
    [Date.now()] is not read for it; the effects of the call are pool
    resolution, registration and enqueue, with no stamp between them. *)
Theorem request_without_userData (wallclock : nat -> Z) (r : RequestOptions.t) (ch : nat)
    (o : CrawlerOptions) (f : Faults) (w : World) (k : Call) (w' : World) :
  RequestOptions.userData r = None ->
  handles_valid w ->
  addRequest wallclock r ch o f w = (k, w') ->
  pc k = Returned ->
  request k = r
  /\ ticks w' = ticks w
  /\ exists c resolve,
       journal w' = journal w ++ resolve
                    ++ [ChannelRegistered (RequestOptions.uniqueKey r) ch;
                        Enqueued c (RequestOptions.uniqueKey r)]
       /\ exists cr, instances w' !! c = Some cr
                     /\ RequestOptions.uniqueKey r ∈ queued_keys w'.
Proof.
  intros Hnone Hvalid Hrun Hret.
  destruct (addRequest_returned wallclock r ch o f w k w' Hrun Hret)
    as (c & resolve & _ & Hcr & Hj & Hreq & Hfresh & _ & _ & Hin & _ & _ & Hv).
  assert (Hc : (c < length (instances w'))%nat).
  { apply (Hv Hvalid (fingerprint o)). rewrite Hcr. apply lookup_insert_eq. }
  destruct (lookup_lt_is_Some_2 _ _ Hc) as [cr0 Hcr0].
  split. { rewrite Hreq. unfold queue_stamp. rewrite Hnone. reflexivity. }
  split.
  - assert (Hend : forall c0 w0, responses w0 !! RequestOptions.uniqueKey r = None ->
              after_admission wallclock c0 (new_call r ch o f) w0 = (k, w') ->
              ticks w' = ticks w0).
    { intros c0 w0 H0 Hafter.
      unfold after_admission, admission_stretch, addResponse, push_before_queue_add in Hafter.
      run_m. simpl in Hafter. rewrite H0, Hnone in Hafter. simpl in Hafter.
      destruct (enqueueFault f); injection Hafter as <- <-; reflexivity. }
    destruct (crawlers w !! fingerprint o) as [c0|] eqn:Hpool.
    + rewrite (addRequest_found wallclock r ch o f w c0 Hpool) in Hrun.
      exact (Hend c0 (record (PoolFound (fingerprint o) c0) w) Hfresh Hrun).
    + rewrite (addRequest_missing wallclock r ch o f w Hpool) in Hrun.
      destruct (queueOpenFault f); [injection Hrun as <- <-; discriminate|].
      destruct (proxyFault f); [injection Hrun as <- <-; discriminate|].
      destruct (stopCapturingFault f); [injection Hrun as <- <-; discriminate|].
      exact (Hend (length (instances w)) (stored o (length (instances w)) (constructed o w))
               Hfresh Hrun).
  - exists c, resolve. split; [|exists cr0; split; [exact Hcr0|exact Hin]].
    rewrite Hj. unfold queue_stamp_effects. rewrite Hnone. reflexivity.
Qed.

Lemma request_without_userData_witness :
  let result := addRequest sample_clock (bare_options "a") 7%nat DEFAULT_CRAWLER_OPTIONS
                  no_faults empty_world in
  request result.1 = bare_options "a"
  /\ ticks result.2 = ticks empty_world
  /\ exists c resolve,
       journal result.2 = journal empty_world ++ resolve
                          ++ [ChannelRegistered "a" 7%nat; Enqueued c "a"]
       /\ exists cr, instances result.2 !! c = Some cr /\ "a" ∈ queued_keys result.2.
Proof.
  intros result.
  apply (request_without_userData sample_clock (bare_options "a") 7%nat
           DEFAULT_CRAWLER_OPTIONS no_faults empty_world result.1 result.2).
  - reflexivity.
  - exact handles_valid_empty.
  - vm_compute. reflexivity.
  - vm_compute. reflexivity.
Defined.

(** X14: the queue de-duplicates by unique key and [addRequest] does not
    look at the outcome of the enqueue: admitting a key that the queue
    already holds (its channel having been consumed) returns normally and
    registers the new channel, but no crawler changes and the queue stays
    as it was, so no job stands behind the new channel. *)
Theorem readmitted_key_is_not_queued (wallclock : nat -> Z) (r : RequestOptions.t)
    (ch : nat) (o : CrawlerOptions) (f : Faults) (w : World) (c : nat)
    (k : Call) (w' : World) :
  crawlers w !! fingerprint o = Some c ->
  RequestOptions.uniqueKey r ∈ queued_keys w ->
  responses w !! RequestOptions.uniqueKey r = None ->
  enqueueFault f = None ->
  addRequest wallclock r ch o f w = (k, w') ->
  pc k = Returned
  /\ responses w' !! RequestOptions.uniqueKey r = Some ch
  /\ instances w' = instances w
  /\ defaultQueue w' = defaultQueue w
  /\ wire w' = wire w.
Proof.
  intros Hpool Hin Hfresh Hf Hrun.
  rewrite (addRequest_found wallclock r ch o f w c Hpool) in Hrun.
  destruct (stretch_fresh wallclock (new_call r ch o f)
              (record (PoolFound (fingerprint o) c) w) Hfresh)
    as (w1 & He & Hr & _ & Hi & Hq & Hw & _).
  unfold after_admission in Hrun. rewrite He in Hrun. simpl in Hrun. rewrite Hf in Hrun.
  injection Hrun as <- <-. split; [reflexivity|].
  unfold enqueued. simpl. split; [rewrite Hr; apply lookup_insert_eq|].
  split; [exact Hi|]. split; [|exact Hw].
  rewrite Hq. simpl. unfold queue_add. rewrite queue_stamp_key.
  rewrite decide_True by exact Hin. reflexivity.
Qed.

Lemma readmitted_key_is_not_queued_witness :
  let first := (addRequest sample_clock (sample_options "a") 7%nat DEFAULT_CRAWLER_OPTIONS
                  no_faults empty_world).2 in
  let consumed := (dispatch "a" "done" 200 first).2 in
  let result := addRequest sample_clock (sample_options "a") 8%nat DEFAULT_CRAWLER_OPTIONS
                  no_faults consumed in
  pc result.1 = Returned
  /\ responses result.2 !! "a" = Some 8%nat
  /\ instances result.2 = instances consumed
  /\ defaultQueue result.2 = defaultQueue consumed
  /\ wire result.2 = wire consumed.
Proof.
  intros first consumed result.
  eapply (readmitted_key_is_not_queued sample_clock (sample_options "a") 8%nat
            DEFAULT_CRAWLER_OPTIONS no_faults consumed 0%nat result.1 result.2).
  - vm_compute. reflexivity.
  - vm_compute. apply list_elem_of_here.
  - vm_compute. reflexivity.
  - reflexivity.
  - vm_compute. reflexivity.
Defined.

(** *** Pools of different configurations *)

Lemma addRequest_new_pool (wallclock : nat -> Z) (r : RequestOptions.t) (ch : nat)
    (o : CrawlerOptions) (w : World) :
  crawlers w !! fingerprint o = None ->
  responses w !! RequestOptions.uniqueKey r = None ->
  exists k w',
    addRequest wallclock r ch o no_faults w = (k, w')
    /\ pc k = Returned
    /\ instances w' = instances w ++ [started_crawler o]
    /\ defaultQueue w' = queue_add (queue_stamp wallclock w r) (defaultQueue w)
    /\ crawlers w' = <[fingerprint o := length (instances w)]> (crawlers w)
    /\ responses w' = <[RequestOptions.uniqueKey r := ch]> (responses w).
Proof.
  intros Hpool Hfresh.
  rewrite (addRequest_missing wallclock r ch o no_faults w Hpool). simpl.
  destruct (stretch_fresh wallclock (new_call r ch o no_faults)
              (stored o (length (instances w)) (constructed o w)) Hfresh)
    as (w1 & He & Hr & Hc & Hi & Hq & _).
  unfold after_admission. rewrite He. simpl.
  eexists _, _. split; [reflexivity|]. split; [reflexivity|].
  unfold enqueued. simpl. rewrite Hi, Hq, instances_stored_constructed.
  split; [reflexivity|]. split; [reflexivity|]. split; assumption.
Qed.

(** X15: two jobs admitted one after the other with configurations whose
    serializations differ, none of which has a pool yet, get a crawler each:
    two crawlers are constructed and started, each stored under its own key.
    The two crawlers hold the same queue, and both jobs are added to it. *)
Theorem different_configurations_get_separate_crawlers (wallclock : nat -> Z)
    (r1 r2 : RequestOptions.t) (ch1 ch2 : nat) (o1 o2 : CrawlerOptions) (w : World) :
  fingerprint o1 <> fingerprint o2 ->
  crawlers w !! fingerprint o1 = None ->
  crawlers w !! fingerprint o2 = None ->
  responses w !! RequestOptions.uniqueKey r1 = None ->
  responses w !! RequestOptions.uniqueKey r2 = None ->
  RequestOptions.uniqueKey r1 <> RequestOptions.uniqueKey r2 ->
  let first := addRequest wallclock r1 ch1 o1 no_faults w in
  let second := addRequest wallclock r2 ch2 o2 no_faults first.2 in
  pc first.1 = Returned
  /\ pc second.1 = Returned
  /\ instances second.2 = instances w ++ [started_crawler o1; started_crawler o2]
  /\ defaultQueue second.2
     = queue_add (queue_stamp wallclock first.2 r2)
         (queue_add (queue_stamp wallclock w r1) (defaultQueue w))
  /\ RequestOptions.uniqueKey r1 ∈ queued_keys second.2
  /\ RequestOptions.uniqueKey r2 ∈ queued_keys second.2
  /\ crawlers second.2 !! fingerprint o1 = Some (length (instances w))
  /\ crawlers second.2 !! fingerprint o2 = Some (S (length (instances w))).
Proof.
  intros Hfp Hp1 Hp2 Hf1 Hf2 Hne first second.
  destruct (addRequest_new_pool wallclock r1 ch1 o1 w Hp1 Hf1)
    as (k1 & w1 & Hrun1 & Hret1 & Hi1 & Hq1 & Hc1 & Hr1).
  subst first second. rewrite Hrun1. simpl.
  assert (Hp2' : crawlers w1 !! fingerprint o2 = None).
  { rewrite Hc1, lookup_insert_ne by exact Hfp. exact Hp2. }
  assert (Hf2' : responses w1 !! RequestOptions.uniqueKey r2 = None).
  { rewrite Hr1, lookup_insert_ne by exact Hne. exact Hf2. }
  destruct (addRequest_new_pool wallclock r2 ch2 o2 w1 Hp2' Hf2')
    as (k2 & w2 & Hrun2 & Hret2 & Hi2 & Hq2 & Hc2 & Hr2).
  rewrite Hrun2. simpl.
  split; [exact Hret1|]. split; [exact Hret2|].
  split. { rewrite Hi2, Hi1, <- app_assoc. reflexivity. }
  split. { rewrite Hq2, Hq1. reflexivity. }
  split. { unfold queued_keys. rewrite Hq2, Hq1. apply queue_add_keeps.
           rewrite <- (queue_stamp_key wallclock w r1). apply queue_add_holds. }
  split. { unfold queued_keys. rewrite Hq2.
           rewrite <- (queue_stamp_key wallclock w1 r2). apply queue_add_holds. }
  rewrite Hc2, Hc1, Hi1, length_app. simpl. split.
  - rewrite lookup_insert_ne by congruence. apply lookup_insert_eq.
  - rewrite lookup_insert_eq. f_equal. lia.
Qed.

Lemma different_configurations_get_separate_crawlers_witness :
  let first := addRequest sample_clock (sample_options "a") 7%nat DEFAULT_CRAWLER_OPTIONS
                 no_faults empty_world in
  let second := addRequest sample_clock (sample_options "b") 8%nat other_crawler_options
                  no_faults first.2 in
  pc first.1 = Returned
  /\ pc second.1 = Returned
  /\ instances second.2
     = instances empty_world
       ++ [started_crawler DEFAULT_CRAWLER_OPTIONS; started_crawler other_crawler_options]
  /\ defaultQueue second.2
     = queue_add (queue_stamp sample_clock first.2 (sample_options "b"))
         (queue_add (queue_stamp sample_clock empty_world (sample_options "a"))
            (defaultQueue empty_world))
  /\ "a" ∈ queued_keys second.2
  /\ "b" ∈ queued_keys second.2
  /\ crawlers second.2 !! fingerprint DEFAULT_CRAWLER_OPTIONS
     = Some (length (instances empty_world))
  /\ crawlers second.2 !! fingerprint other_crawler_options
     = Some (S (length (instances empty_world))).
Proof.
  apply (different_configurations_get_separate_crawlers sample_clock (sample_options "a")
           (sample_options "b") 7%nat 8%nat DEFAULT_CRAWLER_OPTIONS other_crawler_options
           empty_world).
  - vm_compute. discriminate.
  - reflexivity.
  - reflexivity.
  - reflexivity.
  - reflexivity.
  - discriminate.
Defined.

(** *** Invariants of interleaved admissions *)

Lemma run_schedule_invariant (wallclock : nat -> Z) (I : System -> Prop) :
  (forall i s, I s -> I (resume wallclock i s)) ->
  forall sched s, I s -> I (run_schedule wallclock sched s).
Proof.
  intros Hstep sched. unfold run_schedule.
  induction sched as [|i sched IH]; intros s Hs; simpl; [exact Hs|].
  apply IH. apply Hstep. exact Hs.
Qed.

Lemma resume_with_world (wallclock : nat -> Z) (c : nat) (k : Call) (w : World)
    (k' : Call) (w' : World) :
  resume_with wallclock c k w = (k', w') ->
  instances w' = instances w
  /\ crawlers w' = crawlers w
  /\ wire w' = wire w
  /\ crawlerOptions k' = crawlerOptions k
  /\ (pc k' = AwaitEnqueue c \/ exists e, pc k' = Rejected e)
  /\ (forall key ch, responses w !! key = Some ch -> responses w' !! key = Some ch).
Proof.
  intros H. unfold resume_with in H.
  destruct (responses w !! RequestOptions.uniqueKey (request k)) as [other|] eqn:Hreg.
  - rewrite (stretch_duplicate wallclock k w other Hreg) in H. injection H as <- <-.
    repeat split; try reflexivity; [right; eexists; reflexivity|]. intros key ch Hk. exact Hk.
  - destruct (stretch_fresh wallclock k w Hreg) as (w1 & He & Hr & Hc & Hi & _ & Hw & _).
    rewrite He in H. injection H as <- <-.
    repeat split; try assumption; try reflexivity; [left; reflexivity|].
    intros key ch Hk. rewrite Hr.
    rewrite lookup_insert_ne; [exact Hk|]. intros Heq. congruence.
Qed.

Lemma step_keeps_callers (wallclock : nat -> Z) (k : Call) (w : World) (k' : Call)
    (w' : World) :
  addRequest_step wallclock k w = (k', w') ->
  wire w' = wire w
  /\ (forall key ch, responses w !! key = Some ch -> responses w' !! key = Some ch).
Proof.
  intros H. unfold addRequest_step in H.
  destruct (pc k) as [|p|c| |e].
  - destruct (crawlers w !! fingerprint (crawlerOptions k)) as [c|].
    + destruct (resume_with_world wallclock c k _ k' w' H) as (_ & _ & Hw & _ & _ & Hr).
      split; [exact Hw|exact Hr].
    + simpl in H. injection H as <- <-. split; [reflexivity|auto].
  - destruct p as [| | |c|c|e]; simpl in H.
    + injection H as <- <-. split; [reflexivity|auto].
    + destruct (queueOpenFault (faults k)); injection H as <- <-; split; auto.
    + destruct (proxyFault (faults k)); injection H as <- <-; split; auto.
    + destruct (stopCapturingFault (faults k)); injection H as <- <-; split; auto.
    + destruct (resume_with_world wallclock c k _ k' w' H) as (_ & _ & Hw & _ & _ & Hr).
      split; [exact Hw|exact Hr].
    + injection H as <- <-. split; [reflexivity|auto].
  - destruct (enqueueFault (faults k)); injection H as <- <-; split; auto.
  - injection H as <- <-. split; [reflexivity|auto].
  - injection H as <- <-. split; [reflexivity|auto].
Qed.

(** X16: however calls of [addRequest] interleave, they never write to a
    caller and never remove a registered channel: a key that is registered
    stays registered until it is dispatched. *)
Theorem admissions_keep_registered_channels (wallclock : nat -> Z) (sched : list nat)
    (s : System) (key : string) :
  is_Some (responses (world s) !! key) ->
  is_Some (responses (world (run_schedule wallclock sched s)) !! key)
  /\ wire (world (run_schedule wallclock sched s)) = wire (world s).
Proof.
  intros Hreg.
  apply (run_schedule_invariant wallclock
           (fun s' => is_Some (responses (world s') !! key)
                      /\ wire (world s') = wire (world s)));
    [|split; [exact Hreg|reflexivity]].
  intros i s' [[ch Hr] Hw]. unfold resume.
  destruct (calls s' !! i) as [k|]; [|split; [exists ch; exact Hr|exact Hw]].
  destruct (addRequest_step wallclock k (world s')) as [k' w'] eqn:Hstep.
  destruct (step_keeps_callers wallclock k (world s') k' w' Hstep) as (Hw' & Hr').
  simpl. split; [exists ch; apply Hr'; exact Hr|rewrite Hw'; exact Hw].
Qed.

Lemma admissions_keep_registered_channels_witness :
  let s := {| world := waiting_world; calls := calls racing_calls |} in
  is_Some (responses (world (run_schedule sample_clock overlapping_schedule s)) !! "a")
  /\ wire (world (run_schedule sample_clock overlapping_schedule s)) = wire (world s).
Proof.
  intros s.
  apply (admissions_keep_registered_channels sample_clock overlapping_schedule s "a").
  exists 7%nat. reflexivity.
Defined.

Lemma sum_insert (g : Call -> nat) (l : list Call) (i : nat) (k k' : Call) :
  l !! i = Some k ->
  (sum_list_with g (<[i := k']> l) + g k = sum_list_with g l + g k')%nat.
Proof.
  revert i. induction l as [|y l IH]; intros [|i] H; simpl in *; try discriminate.
  - injection H as ->. lia.
  - specialize (IH i H). lia.
Qed.

Lemma sum_bounded (l : list Call) : (sum_list_with may_construct l <= length l)%nat.
Proof.
  induction l as [|k l IH]; simpl; [lia|].
  assert (may_construct k <= 1)%nat.
  { unfold may_construct. destruct (pc k) as [|[| | | | |]| | |]; lia. }
  lia.
Qed.

Lemma resume_with_instances (wallclock : nat -> Z) (c : nat) (k : Call) (w : World)
    (k' : Call) (w' : World) :
  resume_with wallclock c k w = (k', w') ->
  length (instances w') = length (instances w) /\ may_construct k' = 0%nat.
Proof.
  intros H.
  destruct (resume_with_world wallclock c k w k' w' H) as (Hi & _ & _ & _ & Hpc & _).
  split; [rewrite Hi; reflexivity|].
  unfold may_construct. destruct Hpc as [->|[e ->]]; reflexivity.
Qed.

Lemma step_constructs_once (wallclock : nat -> Z) (k : Call) (w : World) (k' : Call)
    (w' : World) :
  addRequest_step wallclock k w = (k', w') ->
  (length (instances w') + may_construct k' <= length (instances w) + may_construct k)%nat.
Proof.
  intros H. unfold addRequest_step in H.
  assert (Hmk : may_construct k
                = match pc k with
                  | Entry => 1%nat
                  | Creating CreateEntry => 1%nat
                  | Creating AwaitQueueOpen => 1%nat
                  | Creating AwaitProxyConfiguration => 1%nat
                  | _ => 0%nat
                  end) by reflexivity.
  destruct (pc k) as [|p|c| |e] eqn:Hpc.
  - rewrite Hmk. destruct (crawlers w !! fingerprint (crawlerOptions k)) as [c|].
    + destruct (resume_with_instances wallclock c k _ k' w' H) as (Hl & ->).
      rewrite Hl. simpl. lia.
    + simpl in H. injection H as <- <-. unfold may_construct. simpl. lia.
  - destruct p as [| | |c|c|e]; rewrite Hmk; simpl in H.
    + injection H as <- <-. unfold may_construct. simpl. lia.
    + destruct (queueOpenFault (faults k)); injection H as <- <-; unfold may_construct; simpl; lia.
    + destruct (proxyFault (faults k)); injection H as <- <-; unfold may_construct; simpl; [lia|].
      rewrite length_app. simpl. lia.
    + destruct (stopCapturingFault (faults k)); injection H as <- <-; unfold may_construct; simpl; [lia|].
      rewrite !length_alter. lia.
    + destruct (resume_with_instances wallclock c k _ k' w' H) as (Hl & ->).
      rewrite Hl. lia.
    + injection H as <- <-. unfold may_construct. simpl. lia.
  - rewrite Hmk.
    destruct (enqueueFault (faults k)); injection H as <- <-; unfold may_construct; simpl; lia.
  - injection H as <- <-. unfold may_construct. rewrite Hpc. lia.
  - injection H as <- <-. unfold may_construct. rewrite Hpc. lia.
Qed.

(** X17: however calls of [addRequest] interleave, each call constructs
    at most one crawler: the number of crawlers constructed never grows by
    more than the number of calls in flight. *)
Theorem at_most_one_crawler_per_call (wallclock : nat -> Z) (sched : list nat) (s : System) :
  (length (instances (world (run_schedule wallclock sched s)))
   <= length (instances (world s)) + length (calls s))%nat.
Proof.
  pose proof (sum_bounded (calls s)) as Hb.
  assert (H : (length (instances (world (run_schedule wallclock sched s)))
               + sum_list_with may_construct (calls (run_schedule wallclock sched s))
               <= length (instances (world s)) + sum_list_with may_construct (calls s))%nat).
  { apply (run_schedule_invariant wallclock
             (fun s' => (length (instances (world s'))
                         + sum_list_with may_construct (calls s')
                         <= length (instances (world s))
                            + sum_list_with may_construct (calls s))%nat)); [|lia].
    intros i s' Hs'. unfold resume.
    destruct (calls s' !! i) as [k|] eqn:Hk; [|exact Hs'].
    destruct (addRequest_step wallclock k (world s')) as [k' w'] eqn:Hstep.
    pose proof (step_constructs_once wallclock k (world s') k' w' Hstep) as Hone.
    pose proof (sum_insert may_construct (calls s') i k k' Hk) as Hsum.
    simpl. lia. }
  lia.
Qed.

Lemma crawlers_kept_same (w w' : World) :
  instances w' = instances w -> crawlers_kept w w'.
Proof.
  intros Hi c cr Hc. exists cr. rewrite Hi. repeat split; [exact Hc|auto].
Qed.

Lemma crawlers_kept_alter (g : Crawler -> Crawler) (i : nat) (w w' : World) :
  (forall cr, configuration (g cr) = configuration cr) ->
  (forall cr, started cr = true -> started (g cr) = true) ->
  instances w' = alter g i (instances w) ->
  crawlers_kept w w'.
Proof.
  intros Hconf Hrun Hi c cr Hc. rewrite Hi. destruct (decide (i = c)) as [->|Hne].
  - exists (g cr). rewrite list_lookup_alter_eq, Hc. repeat split; [apply Hconf|apply Hrun].
  - exists cr. rewrite list_lookup_alter_ne by exact Hne. repeat split; [exact Hc|auto].
Qed.

Lemma crawlers_kept_trans (w1 w2 w3 : World) :
  crawlers_kept w1 w2 -> crawlers_kept w2 w3 -> crawlers_kept w1 w3.
Proof.
  intros H12 H23 c cr Hc.
  destruct (H12 c cr Hc) as (cr2 & Hc2 & Hconf2 & Hrun2).
  destruct (H23 c cr2 Hc2) as (cr3 & Hc3 & Hconf3 & Hrun3).
  exists cr3. repeat split; [exact Hc3|congruence|auto].
Qed.

Lemma crawlers_kept_constructed (o : CrawlerOptions) (w : World) :
  crawlers_kept w (constructed o w).
Proof.
  intros c cr Hc. exists cr. unfold constructed. simpl.
  repeat split; [apply lookup_app_l_Some; exact Hc|auto].
Qed.

Lemma crawlers_kept_stored (o : CrawlerOptions) (c : nat) (w : World) :
  crawlers_kept w (stored o c w).
Proof.
  apply (crawlers_kept_trans w (set_instances (alter run c (instances w)) w)).
  - apply (crawlers_kept_alter run c); [reflexivity|reflexivity|reflexivity].
  - apply (crawlers_kept_alter newPage c); [reflexivity| |reflexivity].
    intros cr H. exact H.
Qed.

Lemma crawlers_kept_enqueued (c : nat) (r : RequestOptions.t) (w : World) :
  crawlers_kept w (enqueued c r w).
Proof.
  apply crawlers_kept_same. reflexivity.
Qed.

Lemma pools_sound_kept (w w' : World) :
  crawlers w' = crawlers w -> crawlers_kept w w' -> pools_sound w -> pools_sound w'.
Proof.
  intros Hc Hkept Hsound key c Hk. rewrite Hc in Hk.
  destruct (Hsound key c Hk) as (cr & Hcr & Hrun & Hfp).
  destruct (Hkept c cr Hcr) as (cr' & Hcr' & Hconf & Hrun').
  exists cr'. repeat split; [exact Hcr'|auto|congruence].
Qed.

Lemma call_sound_kept (w w' : World) (k : Call) :
  crawlers_kept w w' -> call_sound w k -> call_sound w' k.
Proof.
  intros Hkept. unfold call_sound.
  destruct (pc k) as [|[| | |c| |]| | |]; try exact (fun H => H).
  intros (cr & Hcr & Hconf). destruct (Hkept c cr Hcr) as (cr' & Hcr' & Hconf' & _).
  exists cr'. split; [exact Hcr'|congruence].
Qed.

Lemma pools_sound_stored (o : CrawlerOptions) (c : nat) (w : World) (cr : Crawler) :
  pools_sound w ->
  instances w !! c = Some cr ->
  configuration cr = o ->
  pools_sound (stored o c w).
Proof.
  intros Hsound Hcr Hconf key c0 Hk.
  change (crawlers (stored o c w)) with (<[fingerprint o := c]> (crawlers w)) in Hk.
  destruct (decide (fingerprint o = key)) as [<-|Hne].
  - rewrite lookup_insert_eq in Hk. injection Hk as <-.
    exists (newPage (run cr)).
    change (instances (stored o c w)) with (alter newPage c (alter run c (instances w))).
    rewrite !list_lookup_alter_eq, Hcr. repeat split. simpl. rewrite Hconf. reflexivity.
  - rewrite lookup_insert_ne in Hk by exact Hne.
    destruct (Hsound key c0 Hk) as (cr0 & Hcr0 & Hrun0 & Hfp0).
    destruct (crawlers_kept_stored o c w c0 cr0 Hcr0) as (cr' & Hcr' & Hconf' & Hrun').
    exists cr'. repeat split; [exact Hcr'|auto|congruence].
Qed.

Lemma resume_with_sound (wallclock : nat -> Z) (c : nat) (k : Call) (w : World)
    (k' : Call) (w' : World) :
  resume_with wallclock c k w = (k', w') ->
  pools_sound w ->
  pools_sound w' /\ call_sound w' k' /\ crawlers_kept w w'.
Proof.
  intros H Hsound.
  destruct (resume_with_world wallclock c k w k' w' H) as (Hi & Hc & _ & _ & Hpc & _).
  pose proof (crawlers_kept_same w w' Hi) as Hkept.
  split; [exact (pools_sound_kept w w' Hc Hkept Hsound)|]. split; [|exact Hkept].
  unfold call_sound. destruct Hpc as [->|[e ->]]; exact I.
Qed.

Lemma step_sound (wallclock : nat -> Z) (k : Call) (w : World) (k' : Call) (w' : World) :
  addRequest_step wallclock k w = (k', w') ->
  pools_sound w ->
  call_sound w k ->
  pools_sound w' /\ call_sound w' k' /\ crawlers_kept w w'.
Proof.
  intros H Hsound Hcall. unfold addRequest_step in H. unfold call_sound in Hcall.
  destruct (pc k) as [|p|c| |e] eqn:Hpc.
  - destruct (crawlers w !! fingerprint (crawlerOptions k)) as [c|].
    + assert (Hfound : pools_sound (record (PoolFound (fingerprint (crawlerOptions k)) c) w)).
      { apply (pools_sound_kept w); [reflexivity|apply crawlers_kept_same; reflexivity|].
        exact Hsound. }
      destruct (resume_with_sound wallclock c k _ k' w' H Hfound) as (H1 & H2 & H3).
      split; [exact H1|]. split; [exact H2|exact H3].
    + simpl in H. injection H as <- <-.
      (split; [exact Hsound|]; split; [exact I|apply crawlers_kept_same; reflexivity]).
  - destruct p as [| | |c|c|e]; simpl in H.
    + injection H as <- <-.
      (split; [exact Hsound|]; split; [exact I|apply crawlers_kept_same; reflexivity]).
    + destruct (queueOpenFault (faults k)); injection H as <- <-;
        ((split; [exact Hsound|]; split; [exact I|apply crawlers_kept_same; reflexivity])).
    + destruct (proxyFault (faults k)); injection H as <- <-.
      * (split; [exact Hsound|]; split; [exact I|apply crawlers_kept_same; reflexivity]).
      * fold (constructed (crawlerOptions k) w).
        split; [|split; [|apply crawlers_kept_constructed]].
        -- apply (pools_sound_kept w); [reflexivity|apply crawlers_kept_constructed|].
           exact Hsound.
        -- unfold call_sound. simpl. exists (new_PlaywrightCrawler (crawlerOptions k)).
           split; [apply list_lookup_middle; reflexivity|reflexivity].
    + destruct (stopCapturingFault (faults k)); injection H as <- <-.
      * (split; [exact Hsound|]; split; [exact I|apply crawlers_kept_same; reflexivity]).
      * destruct Hcall as (cr & Hcr & Hconf).
        fold (stored (crawlerOptions k) c w).
        split; [exact (pools_sound_stored _ c w cr Hsound Hcr Hconf)|].
        split; [exact I|apply crawlers_kept_stored].
    + exact (resume_with_sound wallclock c k w k' w' H Hsound).
    + injection H as <- <-.
      (split; [exact Hsound|]; split; [exact I|apply crawlers_kept_same; reflexivity]).
  - destruct (enqueueFault (faults k)); injection H as <- <-.
    + (split; [exact Hsound|]; split; [exact I|apply crawlers_kept_same; reflexivity]).
    + fold (enqueued c (request k) w).
      split; [|split; [exact I|apply crawlers_kept_enqueued]].
      apply (pools_sound_kept w); [reflexivity|apply crawlers_kept_enqueued|exact Hsound].
  - injection H as <- <-.
    split; [exact Hsound|]. split; [|apply crawlers_kept_same; reflexivity].
    unfold call_sound. rewrite Hpc. exact I.
  - injection H as <- <-.
    split; [exact Hsound|]. split; [|apply crawlers_kept_same; reflexivity].
    unfold call_sound. rewrite Hpc. exact I.
Qed.

(** X18: however calls of [addRequest] interleave, every crawler that the
    pool map hands out was constructed for a configuration whose
    serialization is the key it is stored under, and [run()] was called on
    it before it was stored: [crawlers.set] comes after [crawler.run()], and
    a call stores only the crawler it constructed itself. *)
Theorem stored_pools_were_started (wallclock : nat -> Z) (sched : list nat) (s : System) :
  pools_sound (world s) ->
  Forall (fun k => pc k = Entry) (calls s) ->
  pools_sound (world (run_schedule wallclock sched s)).
Proof.
  intros Hsound Hentry.
  assert (H : pools_sound (world (run_schedule wallclock sched s))
              /\ Forall (call_sound (world (run_schedule wallclock sched s)))
                   (calls (run_schedule wallclock sched s))).
  { apply (run_schedule_invariant wallclock
             (fun s' => pools_sound (world s') /\ Forall (call_sound (world s')) (calls s'))).
    - intros i s' [Hs Hc]. unfold resume.
      destruct (calls s' !! i) as [k|] eqn:Hk; [|split; assumption].
      destruct (addRequest_step wallclock k (world s')) as [k' w'] eqn:Hstep.
      assert (Hcall : call_sound (world s') k).
      { rewrite Forall_forall in Hc. apply Hc. apply list_elem_of_lookup. exists i. exact Hk. }
      destruct (step_sound wallclock k (world s') k' w' Hstep Hs Hcall) as (H1 & H2 & H3).
      simpl. split; [exact H1|].
      apply Forall_insert; [|exact H2].
      eapply Forall_impl; [exact Hc|]. intros k0. apply call_sound_kept. exact H3.
    - split; [exact Hsound|].
      eapply Forall_impl; [exact Hentry|]. intros k Hk. unfold call_sound. rewrite Hk. exact I. }
  apply H.
Qed.

Lemma stored_pools_were_started_witness :
  pools_sound (world (run_schedule sample_clock overlapping_schedule racing_calls)).
Proof.
  apply (stored_pools_were_started sample_clock overlapping_schedule racing_calls).
  - intros key c H. unfold racing_calls, empty_world in H. simpl in H.
    rewrite lookup_empty in H. discriminate.
  - repeat constructor.
Defined.

(** *** Pool reuse *)

Lemma resume_with_fresh (wallclock : nat -> Z) (c : nat) (k : Call) (w : World) :
  responses w !! call_key k = None ->
  exists k' w',
    resume_with wallclock c k w = (k', w')
    /\ pc k' = AwaitEnqueue c
    /\ call_key k' = call_key k
    /\ crawlerOptions k' = crawlerOptions k
    /\ faults k' = faults k
    /\ crawlers w' = crawlers w
    /\ instances w' = instances w
    /\ defaultQueue w' = defaultQueue w
    /\ (exists l, journal w' = journal w ++ l)
    /\ responses w' = <[call_key k := res k]> (responses w).
Proof.
  intros Hfresh. unfold call_key in *.
  destruct (stretch_fresh wallclock k w Hfresh)
    as (w1 & He & Hr & Hc & Hi & Hq & _ & _ & Hj).
  unfold resume_with. rewrite He. eexists _, _. split; [reflexivity|].
  simpl. rewrite queue_stamp_key. repeat split; try assumption. eexists. exact Hj.
Qed.

Lemma shares_kept (fp : string) (c : nat) (w w' : World) (k : Call) :
  shares fp c w k ->
  responses w' !! call_key k = responses w !! call_key k ->
  (forall key, key ∈ queued_keys w -> key ∈ queued_keys w') ->
  (forall e, e ∈ journal w -> e ∈ journal w') ->
  shares fp c w' k.
Proof.
  unfold shares. intros (Hfp & Hf & Hpc) Hr Hq Hj. split; [exact Hfp|]. split; [exact Hf|].
  destruct (pc k) as [|[| | |c'|c'|e]|c'| |e]; try exact Hpc.
  - rewrite Hr. exact Hpc.
  - destruct Hpc as [H1 H2]. split; [exact H1|]. rewrite Hr. exact H2.
  - destruct Hpc as [H1 H2]. split; [apply Hq; exact H1|apply Hj; exact H2].
Qed.

(** One stretch of a call that shares the stored crawler. *)
Lemma step_shares (wallclock : nat -> Z) (fp : string) (c : nat) (k : Call) (w : World)
    (k' : Call) (w' : World) :
  addRequest_step wallclock k w = (k', w') ->
  crawlers w !! fp = Some c ->
  shares fp c w k ->
  crawlers w' = crawlers w
  /\ instances w' = instances w
  /\ call_key k' = call_key k
  /\ shares fp c w' k'
  /\ stretches_left k' = pred (stretches_left k)
  /\ (forall key, key ∈ queued_keys w -> key ∈ queued_keys w')
  /\ (forall e, e ∈ journal w -> e ∈ journal w')
  /\ (forall key, key <> call_key k -> responses w' !! key = responses w !! key).
Proof.
  intros Hstep Hpool (Hfp & Hf & Hpc). unfold addRequest_step in Hstep.
  unfold stretches_left, shares.
  destruct (pc k) as [|[| | |c'|c'|e]|c'| |e] eqn:Hk; try contradiction.
  - rewrite Hfp, Hpool in Hstep.
    destruct (resume_with_fresh wallclock c k
                (record (PoolFound fp c) w) Hpc)
      as (k1 & w1 & He & Hpc1 & Hkey & Ho & Hfl & Hc & Hi & Hq & (l & Hj) & Hr).
    rewrite He in Hstep. injection Hstep as <- <-.
    rewrite Hpc1, Ho, Hfl. unfold queued_keys. rewrite Hq.
    repeat split; try assumption; try reflexivity.
    + intros key Hin. exact Hin.
    + intros e He'. rewrite Hj. simpl. apply elem_of_app. left. apply elem_of_app. left.
      exact He'.
    + intros key Hne. rewrite Hr. simpl. apply lookup_insert_ne. congruence.
  - destruct Hpc as [-> Hfresh].
    destruct (resume_with_fresh wallclock c k w Hfresh)
      as (k1 & w1 & He & Hpc1 & Hkey & Ho & Hfl & Hc & Hi & Hq & (l & Hj) & Hr).
    rewrite He in Hstep. injection Hstep as <- <-.
    rewrite Hpc1, Ho, Hfl. unfold queued_keys. rewrite Hq.
    repeat split; try assumption; try reflexivity; auto.
    + intros e He'. rewrite Hj. apply elem_of_app. left. exact He'.
    + intros key Hne. rewrite Hr. apply lookup_insert_ne. congruence.
  - subst c'. rewrite Hf in Hstep. injection Hstep as <- <-.
    unfold call_key, queued_keys. simpl.
    repeat split; try assumption; try reflexivity.
    + apply queue_add_holds.
    + apply elem_of_app. right. apply list_elem_of_here.
    + intros key Hin. apply queue_add_keeps. exact Hin.
    + intros e He'. apply elem_of_app. left. exact He'.
  - injection Hstep as <- <-. rewrite Hk. destruct Hpc as [Hq0 Hj0].
    repeat split; try assumption; try reflexivity; auto.
Qed.

Lemma resume_shared (wallclock : nat -> Z) (fp : string) (c : nat) (built : list Crawler)
    (i : nat) (s : System) :
  pool_shared fp c built s ->
  pool_shared fp c built (resume wallclock i s)
  /\ map call_key (calls (resume wallclock i s)) = map call_key (calls s)
  /\ forall j k, calls s !! j = Some k ->
       exists k', calls (resume wallclock i s) !! j = Some k'
                  /\ stretches_left k'
                     = if decide (j = i) then pred (stretches_left k) else stretches_left k.
Proof.
  intros (Hpool & Hi & Hnd & Hall). unfold resume.
  destruct (calls s !! i) as [k|] eqn:Hk.
  2: { split; [exact (conj Hpool (conj Hi (conj Hnd Hall)))|]. split; [reflexivity|].
       intros j k0 Hj. exists k0. split; [exact Hj|].
       case_decide; [subst; congruence|reflexivity]. }
  destruct (addRequest_step wallclock k (world s)) as [k' w'] eqn:Hstep.
  destruct (step_shares wallclock fp c k (world s) k' w' Hstep Hpool (Hall i k Hk))
    as (Hc & Hin & Hkey & Hsh & Hleft & Hq & Hj & Hr).
  pose proof (lookup_lt_Some _ _ _ Hk) as Hlt.
  assert (Hkeys : map call_key (<[i:=k']> (calls s)) = map call_key (calls s)).
  { rewrite list_fmap_insert, Hkey, list_insert_id; [reflexivity|].
    rewrite list_lookup_fmap, Hk. reflexivity. }
  unfold pool_shared. simpl. split; [|split; [exact Hkeys|]].
  - split; [rewrite Hc; exact Hpool|]. split; [rewrite Hin; exact Hi|]. split.
    + rewrite Hkeys. exact Hnd.
    + intros j k0 Hj0. destruct (decide (i = j)) as [<-|Hne].
      * rewrite list_lookup_insert_eq in Hj0 by exact Hlt. injection Hj0 as <-. exact Hsh.
      * rewrite list_lookup_insert_ne in Hj0 by exact Hne.
        apply (shares_kept fp c (world s)); [exact (Hall j k0 Hj0)| |exact Hq|exact Hj].
        apply Hr. intros Heq.
        apply Hne. apply (NoDup_lookup (map call_key (calls s)) i j (call_key k) Hnd).
        -- rewrite list_lookup_fmap, Hk. reflexivity.
        -- rewrite list_lookup_fmap, Hj0. simpl. rewrite Heq. reflexivity.
  - intros j k0 Hj0. destruct (decide (j = i)) as [->|Hne].
    + rewrite Hk in Hj0. injection Hj0 as <-. exists k'.
      split; [apply list_lookup_insert_eq; exact Hlt|exact Hleft].
    + exists k0. split; [|reflexivity].
      rewrite list_lookup_insert_ne by congruence. exact Hj0.
Qed.

Lemma run_schedule_shared (wallclock : nat -> Z) (fp : string) (c : nat)
    (built : list Crawler) (sched : list nat) :
  forall s,
    pool_shared fp c built s ->
    pool_shared fp c built (run_schedule wallclock sched s)
    /\ map call_key (calls (run_schedule wallclock sched s)) = map call_key (calls s)
    /\ forall j k, calls s !! j = Some k ->
         exists k', calls (run_schedule wallclock sched s) !! j = Some k'
                    /\ stretches_left k'
                       = (stretches_left k - count_occ Nat.eq_dec sched j)%nat.
Proof.
  unfold run_schedule. induction sched as [|i sched IH]; intros s Hs; simpl.
  - split; [exact Hs|]. split; [reflexivity|].
    intros j k Hj. exists k. split; [exact Hj|lia].
  - destruct (resume_shared wallclock fp c built i s Hs) as (Hs1 & Hkeys1 & Hleft1).
    destruct (IH (resume wallclock i s) Hs1) as (Hs2 & Hkeys2 & Hleft2).
    split; [exact Hs2|]. split; [rewrite Hkeys2; exact Hkeys1|]. intros j k Hj.
    destruct (Hleft1 j k Hj) as (k1 & Hk1 & Hl1).
    destruct (Hleft2 j k1 Hk1) as (k2 & Hk2 & Hl2).
    exists k2. split; [exact Hk2|]. rewrite Hl2, Hl1.
    destruct (Nat.eq_dec i j) as [->|Hne].
    + rewrite decide_True by reflexivity. lia.
    + rewrite decide_False by congruence. reflexivity.
Qed.

(** A call that shares the stored crawler and has no stretch left has
    returned, with its job enqueued through that crawler. *)
Lemma shares_done (fp : string) (c : nat) (w : World) (k : Call) :
  shares fp c w k ->
  stretches_left k = 0%nat ->
  pc k = Returned
  /\ call_key k ∈ queued_keys w
  /\ Enqueued c (call_key k) ∈ journal w.
Proof.
  unfold shares, stretches_left. intros (_ & _ & Hpc) Hleft.
  destruct (pc k) as [|p|c'| |e]; try discriminate; [|contradiction].
  split; [reflexivity|exact Hpc].
Qed.

(** The first call of two, resumed four times while the other waits, has
    constructed, started and stored its crawler. *)
Lemma first_call_stores (wallclock : nat -> Z) (k1 k2 : Call) (w : World) :
  pc k1 = Entry ->
  crawlers w !! fingerprint (crawlerOptions k1) = None ->
  creation_faultless (faults k1) ->
  run_schedule wallclock [0; 0; 0; 0]%nat {| world := w; calls := [k1; k2] |}
  = {| world := stored (crawlerOptions k1) (length (instances w))
                  (constructed (crawlerOptions k1) w);
       calls := [at_pc (Creating (Created (length (instances w)))) k1; k2] |}.
Proof.
  intros Hpc Hnone (Hq & Hp & Hs).
  unfold run_schedule, resume, addRequest_step.
  cbn [fold_left calls world lookup list_lookup].
  rewrite Hpc, Hnone.
  cbn [createAndStartCrawler_step at_pc pc faults crawlerOptions request res calls world
         insert list_insert lookup list_lookup].
  rewrite Hq.
  cbn [createAndStartCrawler_step at_pc pc faults crawlerOptions request res calls world
         insert list_insert lookup list_lookup].
  rewrite Hp.
  cbn [createAndStartCrawler_step at_pc pc faults crawlerOptions request res calls world
         insert list_insert lookup list_lookup].
  rewrite Hs.
  cbn [createAndStartCrawler_step at_pc pc faults crawlerOptions request res calls world
         insert list_insert lookup list_lookup].
  reflexivity.
Qed.

(** C1, as the code has it: when the second of two calls for
    configurations with equal serializations starts after the first has
    stored its crawler in the pool map (the first need not have registered
    its channel, let alone returned), one crawler is constructed and no
    other, whatever the interleaving of the two calls from then on; each of
    the two calls that is resumed twice more returns, and its job is
    enqueued through that one crawler. *)
Theorem admissions_after_store_share_pool (wallclock : nat -> Z)
    (r1 r2 : RequestOptions.t) (ch1 ch2 : nat) (o1 o2 : CrawlerOptions) (f1 f2 : Faults)
    (w : World) (post : list nat) :
  fingerprint o1 = fingerprint o2 ->
  crawlers w !! fingerprint o1 = None ->
  creation_faultless f1 ->
  enqueueFault f1 = None ->
  enqueueFault f2 = None ->
  responses w !! RequestOptions.uniqueKey r1 = None ->
  responses w !! RequestOptions.uniqueKey r2 = None ->
  RequestOptions.uniqueKey r1 <> RequestOptions.uniqueKey r2 ->
  let s := run_schedule wallclock ([0; 0; 0; 0]%nat ++ post)
             {| world := w; calls := [new_call r1 ch1 o1 f1; new_call r2 ch2 o2 f2] |} in
  let c := length (instances w) in
  instances (world s) = instances w ++ [newPage (run (new_PlaywrightCrawler o1))]
  /\ crawlers (world s) !! fingerprint o2 = Some c
  /\ map call_key (calls s) = [RequestOptions.uniqueKey r1; RequestOptions.uniqueKey r2]
  /\ forall i k,
       calls s !! i = Some k ->
       (2 <= count_occ Nat.eq_dec post i)%nat ->
       pc k = Returned
       /\ call_key k ∈ queued_keys (world s)
       /\ Enqueued c (call_key k) ∈ journal (world s).
Proof.
  intros Hfp Hnone Hfl Hf1 Hf2 Hr1 Hr2 Hne s c.
  unfold s, run_schedule. rewrite fold_left_app.
  fold (run_schedule wallclock [0; 0; 0; 0]%nat
          {| world := w; calls := [new_call r1 ch1 o1 f1; new_call r2 ch2 o2 f2] |}).
  rewrite first_call_stores by (try reflexivity; assumption).
  cbn [crawlerOptions new_call].
  set (s1 := {| world := stored o1 (length (instances w)) (constructed o1 w);
                calls := [at_pc (Creating (Created (length (instances w))))
                            (new_call r1 ch1 o1 f1);
                          new_call r2 ch2 o2 f2] |}).
  assert (Hs1 : pool_shared (fingerprint o2) c (instances w ++ [started_crawler o1]) s1).
  { split. { unfold s1, stored, constructed. simpl. rewrite Hfp. apply lookup_insert_eq. }
    split; [apply instances_stored_constructed|].
    split.
    { unfold s1, call_key. simpl. constructor.
      - intros Hin. apply list_elem_of_singleton in Hin. contradiction.
      - constructor; [apply not_elem_of_nil|constructor]. }
    intros [|[|i]] k Hk; simpl in Hk; try discriminate; injection Hk as <-.
    - split; [exact Hfp|]. split; [exact Hf1|]. split; [reflexivity|exact Hr1].
    - split; [reflexivity|]. split; [exact Hf2|]. exact Hr2. }
  destruct (run_schedule_shared wallclock (fingerprint o2) c _ post s1 Hs1)
    as ((Hpool & Hi & _ & Hall) & Hkeys & Hleft).
  fold (run_schedule wallclock post s1).
  split; [exact Hi|]. split; [exact Hpool|]. split; [exact Hkeys|].
  intros i k Hk Hcount.
  assert (Hsome : exists k0, calls s1 !! i = Some k0).
  { apply lookup_lt_is_Some. apply lookup_lt_Some in Hk.
    rewrite <- (length_map call_key) in Hk. rewrite Hkeys, length_map in Hk. exact Hk. }
  destruct Hsome as [k0 Hk0].
  destruct (Hleft i k0 Hk0) as (k' & Hk' & Hl).
  rewrite Hk in Hk'. injection Hk' as <-.
  apply (shares_done (fingerprint o2) c); [exact (Hall i k Hk)|].
  rewrite Hl. assert (stretches_left k0 <= 2)%nat; [|lia].
  unfold stretches_left. destruct (pc k0) as [|p|c'| |e]; lia.
Qed.

Lemma admissions_after_store_share_pool_witness :
  let s := run_schedule sample_clock ([0; 0; 0; 0]%nat ++ [1; 0; 1; 0]%nat)
             {| world := empty_world;
                calls := [new_call (sample_options "a") 7%nat DEFAULT_CRAWLER_OPTIONS no_faults;
                          new_call (sample_options "b") 8%nat DEFAULT_CRAWLER_OPTIONS
                            no_faults] |} in
  instances (world s)
  = instances empty_world ++ [newPage (run (new_PlaywrightCrawler DEFAULT_CRAWLER_OPTIONS))]
  /\ crawlers (world s) !! fingerprint DEFAULT_CRAWLER_OPTIONS = Some 0%nat
  /\ map call_key (calls s) = ["a"; "b"]
  /\ forall i k,
       calls s !! i = Some k ->
       (2 <= count_occ Nat.eq_dec [1; 0; 1; 0]%nat i)%nat ->
       pc k = Returned
       /\ call_key k ∈ queued_keys (world s)
       /\ Enqueued 0%nat (call_key k) ∈ journal (world s).
Proof.
  apply (admissions_after_store_share_pool sample_clock (sample_options "a")
           (sample_options "b") 7%nat 8%nat DEFAULT_CRAWLER_OPTIONS DEFAULT_CRAWLER_OPTIONS
           no_faults no_faults empty_world [1; 0; 1; 0]%nat).
  - reflexivity.
  - reflexivity.
  - repeat split.
  - reflexivity.
  - reflexivity.
  - reflexivity.
  - reflexivity.
  - discriminate.
Defined.

(** C1 as stated fails for overlapping calls: the second call starts after
    the first has constructed its crawler but before that crawler is stored
    in [crawlers]; it finds no pool, constructs a second crawler and stores
    it over the first.  Two crawlers were constructed and started for one
    fingerprint, the map hands out the second only, and the two jobs were
    enqueued through different crawlers (into the queue that both hold). *)
Lemma overlapping_admissions_create_two_pools :
  fingerprint DEFAULT_CRAWLER_OPTIONS = fingerprint DEFAULT_CRAWLER_OPTIONS
  /\ let s := run_schedule sample_clock overlapping_schedule racing_calls in
     map pc (calls s) = [Returned; Returned]
     /\ length (instances (world s)) = 2%nat
     /\ map started (instances (world s)) = [true; true]
     /\ crawlers (world s) !! fingerprint DEFAULT_CRAWLER_OPTIONS = Some 1%nat
     /\ queued_keys (world s) = ["a"; "b"]
     /\ journal (world s)
        = [PoolConstructed 0; PoolStored (fingerprint DEFAULT_CRAWLER_OPTIONS) 0;
           ChannelRegistered "a" 7; TimingPushed "a" "before queue add"; Enqueued 0 "a";
           PoolConstructed 1; PoolStored (fingerprint DEFAULT_CRAWLER_OPTIONS) 1;
           ChannelRegistered "b" 8; TimingPushed "b" "before queue add"; Enqueued 1 "b"].
Proof.
  split; [reflexivity|]. vm_compute. repeat split.
Qed.

